(** * Joke + Notes screen (src/App.js): model and verified properties

    The screen keeps seven pieces of React state and has four asynchronous
    operations: [loadNotes] (run once on mount), [handleFetchJoke],
    [handleAddNote] (with its helper [saveNotes]) and [handleClearNotes].
    They talk to two outside systems: the key-value store [AsyncStorage]
    and the network ([fetch]).

    The model follows the source:
    - a JavaScript string is the list of its UTF-16 code units;
    - a JavaScript value that can come out of [JSON.parse] is a [json];
    - the operations run in a small state-and-exception monad [M], so
      that [try]/[catch]/[finally] and [await] are written as in the
      source;
    - the store is a finite map from keys to strings, and what the outside
      world answers (a rejected promise, an HTTP response) is an argument
      of the operation;
    - operations run one after the other: an operation suspended at an
      [await] is resumed before the next one starts. *)

From Stdlib Require Import String Ascii NArith List Lia Bool.
From Stdlib Require Import DecimalNat.
From stdpp Require Import gmap list.
Import ListNotations.

Set Warnings "-register-all".

(** ** JavaScript strings *)

(** A string is its sequence of UTF-16 code units. *)
Abbreviation str := (list N).

(** An ASCII literal of the source as a JavaScript string. *)
Definition lit (s : string) : str :=
  List.map N_of_ascii (list_ascii_of_string s).

Section Strings.
Local Open Scope N_scope.

(** WhiteSpace and LineTerminator of ECMAScript: what [String.prototype.trim]
    strips. All of them are single code units. *)
Definition is_trim_space (c : N) : bool :=
  (c =? 0x09) || (c =? 0x0A) || (c =? 0x0B) || (c =? 0x0C) || (c =? 0x0D)
  || (c =? 0x20) || (c =? 0xA0) || (c =? 0x1680)
  || ((0x2000 <=? c) && (c <=? 0x200A))
  || (c =? 0x2028) || (c =? 0x2029) || (c =? 0x202F) || (c =? 0x205F)
  || (c =? 0x3000) || (c =? 0xFEFF).

Fixpoint trimStart (s : str) : str :=
  match s with
  | [] => []
  | c :: r => if is_trim_space c then trimStart r else s
  end.

Definition trimEnd (s : str) : str := rev (trimStart (rev s)).

(** [s.trim()] *)
Definition trim (s : str) : str := trimEnd (trimStart s).

(** ToBoolean on a string: only the empty string is falsy. *)
Definition str_truthy (s : str) : bool :=
  match s with [] => false | _ :: _ => true end.

(** [prefix] in front of [s], or nothing. *)
Fixpoint strip_prefix (prefix s : str) : option str :=
  match prefix with
  | [] => Some s
  | p :: prefix' =>
      match s with
      | [] => None
      | c :: r => if c =? p then strip_prefix prefix' r else None
      end
  end.

End Strings.

(** ** JavaScript numbers

    A JSON number becomes an IEEE double. The three conversions the program
    relies on are taken as an interface; every result below holds for any
    implementation of it. *)
Class NumberModel := {
  Number : Type;
  (** the double denoted by a JSON number literal *)
  StringToNumber : str -> Number;
  (** what [JSON.stringify] prints for a number ([null] when not finite) *)
  NumberToJSON : Number -> str;
  (** ToBoolean on a number (false on zero and NaN) *)
  NumberToBoolean : Number -> bool
}.

(** An implementation that keeps the literal as it was written. It is only
    used to run the operations on concrete inputs. *)
Definition literal_numbers : NumberModel := {|
  Number := str;
  StringToNumber := fun s => s;
  NumberToJSON := fun s => s;
  NumberToBoolean := fun s => negb (forallb (fun c => N.eqb c 48) s)
|}.

(** ** JSON values *)

Section Values.
Context {num : NumberModel}.

(** The values [JSON.parse] can return. An object is the list of its own
    properties in property order. *)
Inductive json : Type :=
  | JNull
  | JBool (b : bool)
  | JNumber (n : Number)
  | JString (s : str)
  | JArray (elements : list json)
  | JObject (properties : list (str * json)).

(** [Array.isArray(v)] *)
Definition isArray (v : json) : bool :=
  match v with JArray _ => true | _ => false end.

(** ToBoolean: the test of [if (v)], [v && ...] and [v ? ... : ...]. *)
Definition ToBoolean (v : json) : bool :=
  match v with
  | JNull => false
  | JBool b => b
  | JNumber n => NumberToBoolean n
  | JString s => str_truthy s
  | JArray _ => true
  | JObject _ => true
  end.

(** [v.name] on a truthy value, as the joke card reads it: a property of
    an object, [undefined] ([None]) when there is none or when [v] is not an
    object. *)
Fixpoint get_property (name : str) (props : list (str * json)) : option json :=
  match props with
  | [] => None
  | (k, v) :: rest =>
      if decide (k = name) then Some v else get_property name rest
  end.

Definition member (v : json) (name : str) : option json :=
  match v with
  | JObject props => get_property name props
  | _ => None
  end.

End Values.

(** ** JSON.stringify and JSON.parse *)

Module JSON.
Section JSON.
Context {num : NumberModel}.
Local Open Scope N_scope.

(** *** Serialisation (QuoteJSONString, SerializeJSONProperty) *)

Definition hex_digit (n : N) : N := if n <? 10 then 48 + n else 87 + n.

(** [\uXXXX] with four lower-case hexadecimal digits. *)
Definition UnicodeEscape (c : N) : str :=
  [92; 117; hex_digit (c / 4096 mod 16); hex_digit (c / 256 mod 16);
   hex_digit (c / 16 mod 16); hex_digit (c mod 16)].

Definition is_leading_surrogate (c : N) : bool :=
  (0xD800 <=? c) && (c <=? 0xDBFF).

Definition is_trailing_surrogate (c : N) : bool :=
  (0xDC00 <=? c) && (c <=? 0xDFFF).

(** One code unit that is not part of a surrogate pair. *)
Definition quote_unit (c : N) : str :=
  if c =? 0x08 then [92; 98]
  else if c =? 0x09 then [92; 116]
  else if c =? 0x0A then [92; 110]
  else if c =? 0x0C then [92; 102]
  else if c =? 0x0D then [92; 114]
  else if c =? 0x22 then [92; 34]
  else if c =? 0x5C then [92; 92]
  else if (c <? 0x20) || is_leading_surrogate c || is_trailing_surrogate c
       then UnicodeEscape c
  else [c].

(** The string is read by code points: a leading surrogate followed by a
    trailing one is one code point and is copied, any other surrogate is
    escaped. *)
Fixpoint quote_units (s : str) : str :=
  match s with
  | [] => []
  | c :: r =>
      if is_leading_surrogate c then
        match r with
        | d :: r' =>
            if is_trailing_surrogate d then c :: d :: quote_units r'
            else quote_unit c ++ quote_units r
        | [] => quote_unit c
        end
      else quote_unit c ++ quote_units r
  end.

Definition QuoteJSONString (s : str) : str := [34] ++ quote_units s ++ [34].

Fixpoint join_comma (parts : list str) : str :=
  match parts with
  | [] => []
  | [p] => p
  | p :: rest => p ++ [44] ++ join_comma rest
  end.

(** [JSON.stringify(v)] with no replacer and no indentation, on a value
    built from strings and from what [JSON.parse] returns. *)
Fixpoint stringify (v : json) : str :=
  match v with
  | JNull => lit "null"
  | JBool true => lit "true"
  | JBool false => lit "false"
  | JNumber n => NumberToJSON n
  | JString s => QuoteJSONString s
  | JArray elements => [91] ++ join_comma (List.map stringify elements) ++ [93]
  | JObject properties =>
      [123]
      ++ join_comma
           (List.map
              (fun kv => QuoteJSONString (fst kv) ++ [58] ++ stringify (snd kv))
              properties)
      ++ [125]
  end.

(** *** Property order of an object

    [JSON.parse] adds each member with CreateDataProperty: a key that is
    already there keeps its place and takes the new value, a new key that
    is an array index goes among the indices in ascending order, any other
    new key goes last. *)

Definition is_digit (c : N) : bool := (48 <=? c) && (c <=? 57).

Definition decimal_value (ds : str) : N :=
  fold_left (fun acc d => acc * 10 + (d - 48)) ds 0.

(** The canonical decimal form of an integer below 2^32 - 1. *)
Definition array_index (k : str) : option N :=
  match k with
  | [] => None
  | c :: r =>
      if c =? 48 then match r with [] => Some 0 | _ :: _ => None end
      else if is_digit c && forallb is_digit r then
        if decimal_value k <? 4294967295 then Some (decimal_value k) else None
      else None
  end.

Fixpoint has_property (k : str) (props : list (str * json)) : bool :=
  match props with
  | [] => false
  | (k', _) :: rest => if decide (k' = k) then true else has_property k rest
  end.

Fixpoint update_property (k : str) (v : json) (props : list (str * json))
  : list (str * json) :=
  match props with
  | [] => []
  | (k', v') :: rest =>
      if decide (k' = k) then (k, v) :: rest
      else (k', v') :: update_property k v rest
  end.

Fixpoint insert_index (i : N) (k : str) (v : json) (props : list (str * json))
  : list (str * json) :=
  match props with
  | [] => [(k, v)]
  | (k', v') :: rest =>
      match array_index k' with
      | Some j => if j <? i then (k', v') :: insert_index i k v rest
                  else (k, v) :: props
      | None => (k, v) :: props
      end
  end.

Definition CreateDataProperty (props : list (str * json)) (k : str) (v : json)
  : list (str * json) :=
  if has_property k props then update_property k v props
  else match array_index k with
       | Some i => insert_index i k v props
       | None => props ++ [(k, v)]
       end.

Definition object_of (members : list (str * json)) : list (str * json) :=
  fold_left (fun props kv => CreateDataProperty props (fst kv) (snd kv))
            members [].

(** *** Parsing (the JSON grammar) *)

Definition is_ws (c : N) : bool :=
  (c =? 0x09) || (c =? 0x0A) || (c =? 0x0D) || (c =? 0x20).

Fixpoint skip_ws (s : str) : str :=
  match s with
  | [] => []
  | c :: r => if is_ws c then skip_ws r else s
  end.

Definition hex_value (c : N) : option N :=
  if (48 <=? c) && (c <=? 57) then Some (c - 48)
  else if (97 <=? c) && (c <=? 102) then Some (c - 87)
  else if (65 <=? c) && (c <=? 70) then Some (c - 55)
  else None.

Definition hex4 (h1 h2 h3 h4 : N) : option N :=
  a ← hex_value h1; b ← hex_value h2; c ← hex_value h3; d ← hex_value h4;
  Some (((a * 16 + b) * 16 + c) * 16 + d).

(** The character after a backslash, [u] apart. *)
Definition escape_char (e : N) : option N :=
  if e =? 34 then Some 34
  else if e =? 92 then Some 92
  else if e =? 47 then Some 47
  else if e =? 98 then Some 0x08
  else if e =? 102 then Some 0x0C
  else if e =? 110 then Some 0x0A
  else if e =? 114 then Some 0x0D
  else if e =? 116 then Some 0x09
  else None.

Definition push (c : N) (r : option (str * str)) : option (str * str) :=
  '(t, rest) ← r; Some (c :: t, rest).

(** The characters of a string after its opening quote, up to and with the
    closing quote: the string's value and what follows it. *)
Fixpoint parse_chars (s : str) : option (str * str) :=
  match s with
  | [] => None
  | c :: r =>
      if c =? 34 then Some ([], r)
      else if c =? 92 then
        match r with
        | [] => None
        | e :: r' =>
            if e =? 117 then
              match r' with
              | h1 :: h2 :: h3 :: h4 :: r'' =>
                  match hex4 h1 h2 h3 h4 with
                  | Some u => push u (parse_chars r'')
                  | None => None
                  end
              | _ => None
              end
            else
              match escape_char e with
              | Some u => push u (parse_chars r')
              | None => None
              end
        end
      else if c <? 0x20 then None
      else push c (parse_chars r)
  end.

Fixpoint digits (s : str) : str * str :=
  match s with
  | [] => ([], [])
  | c :: r =>
      if is_digit c then let '(ds, rest) := digits r in (c :: ds, rest)
      else ([], s)
  end.

Definition parse_sign (s : str) : str * str :=
  match s with
  | c :: r => if c =? 45 then ([c], r) else ([], s)
  | [] => ([], s)
  end.

Definition parse_int (s : str) : option (str * str) :=
  match s with
  | [] => None
  | c :: r =>
      if c =? 48 then Some ([c], r)
      else if is_digit c then let '(ds, rest) := digits r in Some (c :: ds, rest)
      else None
  end.

Definition parse_frac (s : str) : option (str * str) :=
  match s with
  | c :: r =>
      if c =? 46 then
        match digits r with
        | ([], _) => None
        | (ds, rest) => Some (c :: ds, rest)
        end
      else Some ([], s)
  | [] => Some ([], s)
  end.

Definition parse_exp (s : str) : option (str * str) :=
  match s with
  | c :: r =>
      if (c =? 101) || (c =? 69) then
        let '(sign, r1) :=
          match r with
          | d :: r' => if (d =? 43) || (d =? 45) then ([d], r') else ([], r)
          | [] => ([], r)
          end in
        match digits r1 with
        | ([], _) => None
        | (ds, rest) => Some (c :: sign ++ ds, rest)
        end
      else Some ([], s)
  | [] => Some ([], s)
  end.

(** A number literal and what follows it. *)
Definition parse_number (s : str) : option (str * str) :=
  let '(sign, s1) := parse_sign s in
  '(i, s2) ← parse_int s1;
  '(f, s3) ← parse_frac s2;
  '(e, s4) ← parse_exp s3;
  Some (sign ++ i ++ f ++ e, s4).

(** A value at the head of [s] (no white space before it) and what follows
    it. [fuel] bounds the depth of the calls; [parse] gives enough. *)
Fixpoint parse_value (fuel : nat) (s : str) : option (json * str) :=
  match fuel with
  | O => None
  | S fuel' =>
      match s with
      | [] => None
      | c :: r =>
          if c =? 34 then
            '(t, rest) ← parse_chars r; Some (JString t, rest)
          else if c =? 91 then
            match skip_ws r with
            | [] => None
            | d :: r' =>
                if d =? 93 then Some (JArray [], r')
                else '(vs, rest) ← parse_elements fuel' (d :: r');
                     Some (JArray vs, rest)
            end
          else if c =? 123 then
            match skip_ws r with
            | [] => None
            | d :: r' =>
                if d =? 125 then Some (JObject [], r')
                else '(ms, rest) ← parse_members fuel' (d :: r');
                     Some (JObject (object_of ms), rest)
            end
          else if c =? 116 then
            rest ← strip_prefix (lit "true") s; Some (JBool true, rest)
          else if c =? 102 then
            rest ← strip_prefix (lit "false") s; Some (JBool false, rest)
          else if c =? 110 then
            rest ← strip_prefix (lit "null") s; Some (JNull, rest)
          else
            '(l, rest) ← parse_number s; Some (JNumber (StringToNumber l), rest)
      end
  end
with parse_elements (fuel : nat) (s : str) : option (list json * str) :=
  match fuel with
  | O => None
  | S fuel' =>
      '(v, r) ← parse_value fuel' s;
      match skip_ws r with
      | [] => None
      | d :: r' =>
          if d =? 44 then
            '(vs, rest) ← parse_elements fuel' (skip_ws r'); Some (v :: vs, rest)
          else if d =? 93 then Some ([v], r')
          else None
      end
  end
with parse_members (fuel : nat) (s : str) : option (list (str * json) * str) :=
  match fuel with
  | O => None
  | S fuel' =>
      match s with
      | [] => None
      | c :: r =>
          if c =? 34 then
            '(k, r1) ← parse_chars r;
            match skip_ws r1 with
            | [] => None
            | d :: r2 =>
                if d =? 58 then
                  '(v, r3) ← parse_value fuel' (skip_ws r2);
                  match skip_ws r3 with
                  | [] => None
                  | e :: r4 =>
                      if e =? 44 then
                        '(ms, rest) ← parse_members fuel' (skip_ws r4);
                        Some ((k, v) :: ms, rest)
                      else if e =? 125 then Some ([(k, v)], r4)
                      else None
                  end
                else None
            end
          else None
      end
  end.

(** [JSON.parse(text)]: one value with white space around it and nothing
    else; [None] is the SyntaxError. *)
Definition parse (text : str) : option json :=
  '(v, rest) ← parse_value (2 * length text + 1)%nat (skip_ws text);
  match skip_ws rest with
  | [] => Some v
  | _ :: _ => None
  end.

End JSON.
End JSON.


(** ** The screen's state and the outside world *)

Section World.
Context {num : NumberModel}.

(** The seven [useState] cells of [App]. *)
Record State := {
  joke : json;
  jokeError : str;
  jokeLoading : bool;
  noteInput : str;
  notes : list json;
  notesError : str;
  notesLoading : bool
}.

(** The initial values given to [useState]; [joke] starts as [null]. *)
Definition initial_state : State := {|
  joke := JNull;
  jokeError := [];
  jokeLoading := false;
  noteInput := [];
  notes := [];
  notesError := [];
  notesLoading := true
|}.

(** A request made to the outside world. *)
Inductive call :=
  | GetItem (key : str)
  | SetItem (key value : str)
  | RemoveItem (key : str)
  | Fetch (url : str).

(** The screen's state, the contents of the key-value store, the requests
    issued so far (oldest first) and the states that were on screen each
    time an operation was suspended at an [await] (oldest first). *)
Record World := {
  ui : State;
  storage : gmap str str;
  issued : list call;
  frames : list State
}.

Definition with_ui (f : State -> State) (w : World) : World :=
  {| ui := f (ui w); storage := storage w; issued := issued w;
     frames := frames w |}.

Definition with_storage (f : gmap str str -> gmap str str) (w : World) : World :=
  {| ui := ui w; storage := f (storage w); issued := issued w;
     frames := frames w |}.

Definition issue (c : call) (w : World) : World :=
  {| ui := ui w; storage := storage w; issued := issued w ++ [c];
     frames := frames w |}.

Definition suspend (w : World) : World :=
  {| ui := ui w; storage := storage w; issued := issued w;
     frames := frames w ++ [ui w] |}.

(** What can be thrown: the SyntaxError of [JSON.parse], an [Error] made by
    the program, and the rejection of a promise of the outside world. *)
Inductive exn :=
  | SyntaxError
  | Error (message : str)
  | Rejection.

(** How a promise of the outside world settles. *)
Inductive settlement := fulfilled | rejected.

(** *** The monad of the operations

    A computation changes the world and either returns or throws; the
    changes made before a throw stay. *)
Definition M (A : Type) : Type := World -> (exn + A) * World.

#[export] Instance M_ret : MRet M := fun A a w => (inr a, w).

#[export] Instance M_bind : MBind M := fun A B k m w =>
  match m w with
  | (inl e, w') => (inl e, w')
  | (inr a, w') => k a w'
  end.

Definition throw {A} (e : exn) : M A := fun w => (inl e, w).

(** [try { body } catch (error) { handler }] *)
Definition try_catch {A} (body : M A) (handler : exn -> M A) : M A := fun w =>
  match body w with
  | (inl e, w') => handler e w'
  | (inr a, w') => (inr a, w')
  end.

(** [try { body } finally { finalizer }] *)
Definition try_finally {A} (body : M A) (finalizer : M unit) : M A := fun w =>
  let '(r, w') := body w in
  match finalizer w' with
  | (inl e, w'') => (inl e, w'')
  | (inr _, w'') => (r, w'')
  end.

(** [await p]: the operation is suspended, the screen shows the state
    reached so far, and the operation goes on when [p] has settled. *)
Definition await {A} (p : M A) : M A := fun w => p (suspend w).

(** The current values of the state cells, as the handler's closure sees
    them. *)
Definition state : M State := fun w => (inr (ui w), w).

(** *** The state setters *)

Definition setJoke (v : json) : M unit := fun w =>
  (inr tt, with_ui (fun st =>
    {| joke := v; jokeError := jokeError st; jokeLoading := jokeLoading st;
       noteInput := noteInput st; notes := notes st;
       notesError := notesError st; notesLoading := notesLoading st |}) w).

Definition setJokeError (v : str) : M unit := fun w =>
  (inr tt, with_ui (fun st =>
    {| joke := joke st; jokeError := v; jokeLoading := jokeLoading st;
       noteInput := noteInput st; notes := notes st;
       notesError := notesError st; notesLoading := notesLoading st |}) w).

Definition setJokeLoading (v : bool) : M unit := fun w =>
  (inr tt, with_ui (fun st =>
    {| joke := joke st; jokeError := jokeError st; jokeLoading := v;
       noteInput := noteInput st; notes := notes st;
       notesError := notesError st; notesLoading := notesLoading st |}) w).

Definition setNoteInput (v : str) : M unit := fun w =>
  (inr tt, with_ui (fun st =>
    {| joke := joke st; jokeError := jokeError st;
       jokeLoading := jokeLoading st; noteInput := v; notes := notes st;
       notesError := notesError st; notesLoading := notesLoading st |}) w).

Definition setNotes (v : list json) : M unit := fun w =>
  (inr tt, with_ui (fun st =>
    {| joke := joke st; jokeError := jokeError st;
       jokeLoading := jokeLoading st; noteInput := noteInput st; notes := v;
       notesError := notesError st; notesLoading := notesLoading st |}) w).

Definition setNotesError (v : str) : M unit := fun w =>
  (inr tt, with_ui (fun st =>
    {| joke := joke st; jokeError := jokeError st;
       jokeLoading := jokeLoading st; noteInput := noteInput st;
       notes := notes st; notesError := v;
       notesLoading := notesLoading st |}) w).

Definition setNotesLoading (v : bool) : M unit := fun w =>
  (inr tt, with_ui (fun st =>
    {| joke := joke st; jokeError := jokeError st;
       jokeLoading := jokeLoading st; noteInput := noteInput st;
       notes := notes st; notesError := notesError st;
       notesLoading := v |}) w).

(** [JSON.parse] as the program calls it: it returns or throws. *)
Definition JSON_parse (text : str) : M json :=
  match JSON.parse text with
  | Some v => mret v
  | None => throw SyntaxError
  end.

End World.

(** *** AsyncStorage

    Each call is issued, then its promise settles as the outside world
    decides. A call whose promise is rejected leaves the store as it was. *)
Module AsyncStorage.
Section AsyncStorage.
Context {num : NumberModel}.

Definition getItem (io : settlement) (key : str) : M (option str) := fun w =>
  let w := issue (GetItem key) w in
  match io with
  | fulfilled => (inr (storage w !! key), w)
  | rejected => (inl Rejection, w)
  end.

Definition setItem (io : settlement) (key value : str) : M unit := fun w =>
  let w := issue (SetItem key value) w in
  match io with
  | fulfilled => (inr tt, with_storage (insert key value) w)
  | rejected => (inl Rejection, w)
  end.

Definition removeItem (io : settlement) (key : str) : M unit := fun w =>
  let w := issue (RemoveItem key) w in
  match io with
  | fulfilled => (inr tt, with_storage (delete key) w)
  | rejected => (inl Rejection, w)
  end.

End AsyncStorage.
End AsyncStorage.

(** *** fetch *)
Module Response.
Section Response.
Context {num : NumberModel}.

(** A response: its [ok] flag (status in the range 200-299) and what
    reading its body as JSON gives, [None] when that fails. *)
Record t := { ok : bool; body : option json }.

(** [response.json()] *)
Definition json (response : t) : M json :=
  match body response with
  | Some data => mret data
  | None => throw SyntaxError
  end.

End Response.
End Response.

Section App.
Context {num : NumberModel}.

(** [fetch(url)]: the promise is rejected on a transport failure ([None])
    and fulfilled with the response otherwise, whatever its status. *)
Definition fetch (answer : option Response.t) (url : str) : M Response.t :=
  fun w =>
  let w := issue (Fetch url) w in
  match answer with
  | Some response => (inr response, w)
  | None => (inl Rejection, w)
  end.

(** ** The operations of [App] *)

Definition JOKE_API_URL : str :=
  lit "https://official-joke-api.appspot.com/random_joke".
Definition NOTES_KEY : str := lit "notes".

(** The [try] block of [loadNotes]. *)
Definition loadNotes_try (io : settlement) : M unit :=
  stored ← await (AsyncStorage.getItem io NOTES_KEY);
  match stored with
  | Some text =>
      if str_truthy text then
        parsed ← JSON_parse text;
        match parsed with
        | JArray elements => setNotes elements
        | _ =>
            setNotesError (lit "Saved notes are corrupted");;
            setNotes []
        end
      else mret tt
  | None => mret tt
  end.

Definition loadNotes (io : settlement) : M unit :=
  try_finally
    (try_catch (loadNotes_try io)
       (fun error => setNotesError (lit "Failed to load notes")))
    (setNotesLoading false).

(** The [try] block of [handleFetchJoke]. *)
Definition handleFetchJoke_try (answer : option Response.t) : M unit :=
  response ← await (fetch answer JOKE_API_URL);
  (if negb (Response.ok response)
   then throw (Error (lit "Network response was not ok"))
   else mret tt);;
  data ← await (Response.json response);
  setJoke data.

Definition handleFetchJoke (answer : option Response.t) : M unit :=
  setJokeError [];;
  setJokeLoading true;;
  try_finally
    (try_catch (handleFetchJoke_try answer)
       (fun error =>
          setJokeError (lit "Could not fetch a joke. Please try again.")))
    (setJokeLoading false).

(** The [try] block of [saveNotes]. *)
Definition saveNotes_try (io : settlement) (updatedNotes : list json) : M unit :=
  await (AsyncStorage.setItem io NOTES_KEY
           (JSON.stringify (JArray updatedNotes))).

Definition saveNotes (io : settlement) (updatedNotes : list json) : M unit :=
  try_catch (saveNotes_try io updatedNotes)
    (fun error => setNotesError (lit "Failed to save notes")).

Definition handleAddNote (io : settlement) : M unit :=
  st ← state;
  let trimmed := trim (noteInput st) in
  if negb (str_truthy trimmed) then mret tt
  else
    let updatedNotes := notes st ++ [JString trimmed] in
    setNotes updatedNotes;;
    setNoteInput [];;
    setNotesError [];;
    await (saveNotes io updatedNotes).

(** The [try] block of [handleClearNotes]. *)
Definition handleClearNotes_try (io : settlement) : M unit :=
  await (AsyncStorage.removeItem io NOTES_KEY).

Definition handleClearNotes (io : settlement) : M unit :=
  setNotes [];;
  setNotesError [];;
  try_catch (handleClearNotes_try io)
    (fun error => setNotesError (lit "Failed to clear notes")).

(** ** What the screen shows *)

Inductive element :=
  | ActivityIndicator
  | ErrorText (message : str)
  | JokeCard (setup punchline : option json)
  | FlatList (data : list json).

(** The three conditional children of the "Random Joke" section. *)
Definition render_joke (st : State) : list element :=
  (if jokeLoading st then [ActivityIndicator] else [])
  ++ (if str_truthy (jokeError st) then [ErrorText (jokeError st)] else [])
  ++ (if ToBoolean (joke st) && negb (jokeLoading st)
      then [JokeCard (member (joke st) (lit "setup"))
                     (member (joke st) (lit "punchline"))]
      else []).

(** The conditional child of the "Notes" section. *)
Definition render_notes (st : State) : list element :=
  if notesLoading st then [ActivityIndicator]
  else if str_truthy (notesError st) then [ErrorText (notesError st)]
  else [FlatList (notes st)].

(** Is the joke card on screen? *)
Definition shows_joke_card (st : State) : bool :=
  existsb (fun e => match e with JokeCard _ _ => true | _ => false end)
          (render_joke st).

End App.

(** ** Notions used to state the properties *)

Section Notions.
Context {num : NumberModel}.

(** The application started again on the same store. *)
Definition restart (w : World) : World :=
  {| ui := initial_state; storage := storage w; issued := []; frames := [] |}.

(** The store holds the serialised list, or holds nothing while the list is
    empty. *)
Definition in_sync (w : World) : Prop :=
  match storage w !! NOTES_KEY with
  | Some text => text = JSON.stringify (JArray (notes (ui w)))
  | None => notes (ui w) = []
  end.

(** The state on screen while the joke request is in flight. *)
Definition fetching (st : State) : State :=
  {| joke := joke st; jokeError := []; jokeLoading := true;
     noteInput := noteInput st; notes := notes st;
     notesError := notesError st; notesLoading := notesLoading st |}.

End Notions.

(** ** Concrete worlds, used to run the operations *)

Section Examples.
#[local] Existing Instance literal_numbers.

(** One note saved, a second one typed with blanks around it, and an error
    left by an earlier operation. *)
Definition example_world : World := {|
  ui := {| joke := JNull; jokeError := []; jokeLoading := false;
           noteInput := lit "  Call mom ";
           notes := [JString (lit "Buy milk")];
           notesError := lit "Failed to save notes";
           notesLoading := false |};
  storage := {[ NOTES_KEY := JSON.stringify (JArray [JString (lit "Buy milk")]) ]};
  issued := [];
  frames := []
|}.

(** The same with only blanks typed. *)
Definition blank_world : World := {|
  ui := {| joke := JNull; jokeError := []; jokeLoading := false;
           noteInput := lit "   ";
           notes := [JString (lit "Buy milk")];
           notesError := lit "Failed to save notes";
           notesLoading := false |};
  storage := {[ NOTES_KEY := JSON.stringify (JArray [JString (lit "Buy milk")]) ]};
  issued := [];
  frames := []
|}.

(** The application at start with a given text in the slot. *)
Definition startup_world (slot : option str) : World := {|
  ui := initial_state;
  storage := match slot with
             | Some text => {[ NOTES_KEY := text ]}
             | None => ∅
             end;
  issued := [];
  frames := []
|}.

Definition example_joke : json :=
  JObject [(lit "setup", JString (lit "Why did the chicken cross the road?"));
           (lit "punchline", JString (lit "To get to the other side."))].

Definition example_response : Response.t :=
  {| Response.ok := true; Response.body := Some example_joke |}.

(** A joke was fetched, then a second fetch failed. *)
Definition stale_joke_world : World :=
  (handleFetchJoke None
     (handleFetchJoke (Some example_response) (startup_world None)).2).2.

End Examples.

(** ** The events of a session *)

Section Session.
Context {num : NumberModel}.

(** What happens to the screen: it is mounted (the effect runs
    [loadNotes]), the text of the input changes ([onChangeText] is
    [setNoteInput]), or one of the three buttons is pressed. Each event
    carries what the outside world answers to the request it makes. *)
Inductive event :=
  | Mount (io : settlement)
  | ChangeText (text : str)
  | PressGetJoke (answer : option Response.t)
  | PressAddNote (io : settlement)
  | PressClearNotes (io : settlement).

Definition handle (e : event) : M unit :=
  match e with
  | Mount io => loadNotes io
  | ChangeText text => setNoteInput text
  | PressGetJoke answer => handleFetchJoke answer
  | PressAddNote io => handleAddNote io
  | PressClearNotes io => handleClearNotes io
  end.

(** The events one after the other, each one completed before the next. *)
Fixpoint run (events : list event) (w : World) : World :=
  match events with
  | [] => w
  | e :: rest => run rest (handle e w).2
  end.


(** Every note is a string. *)
Definition all_strings (l : list json) : Prop :=
  ∃ texts : list str, l = List.map JString texts.

(** The slot is absent or holds the serialisation of a list of strings:
    what the application itself writes. *)
Definition slot_written_by_app (w : World) : Prop :=
  storage w !! NOTES_KEY = None
  ∨ ∃ texts : list str,
      storage w !! NOTES_KEY
      = Some (JSON.stringify (JArray (List.map JString texts))).

(** A storage request on the notes slot. *)
Definition is_storage_call (c : call) : Prop :=
  match c with
  | Fetch _ => False
  | GetItem key | SetItem key _ | RemoveItem key => key = NOTES_KEY
  end.


End Session.

(** ** The rows of the list of notes *)

Section Rows.
Context {num : NumberModel}.
(** Number::toString, for a number that is an element of the list. *)
Variable NumberToString : Number -> str.

Definition digit_unit (d : nat) : N := N.of_nat (48 + d).

Fixpoint uint_units (d : Decimal.uint) : str :=
  match d with
  | Decimal.Nil => []
  | Decimal.D0 d => digit_unit 0 :: uint_units d
  | Decimal.D1 d => digit_unit 1 :: uint_units d
  | Decimal.D2 d => digit_unit 2 :: uint_units d
  | Decimal.D3 d => digit_unit 3 :: uint_units d
  | Decimal.D4 d => digit_unit 4 :: uint_units d
  | Decimal.D5 d => digit_unit 5 :: uint_units d
  | Decimal.D6 d => digit_unit 6 :: uint_units d
  | Decimal.D7 d => digit_unit 7 :: uint_units d
  | Decimal.D8 d => digit_unit 8 :: uint_units d
  | Decimal.D9 d => digit_unit 9 :: uint_units d
  end.

(** ToString of an index: its decimal digits. *)
Definition index_string (index : nat) : str := uint_units (Nat.to_uint index).

(** ToString of a value, as a template literal applies it; [None] is the
    TypeError. An array is its elements joined by commas, [null] elements
    giving nothing. An object is ["[object Object]"], unless it has a
    property [toString] of its own: a value read from JSON cannot be
    called, and [valueOf] gives no primitive. *)
Fixpoint ToString (v : json) : option str :=
  match v with
  | JNull => Some (lit "null")
  | JBool true => Some (lit "true")
  | JBool false => Some (lit "false")
  | JNumber n => Some (NumberToString n)
  | JString s => Some s
  | JArray elements =>
      (fix join (l : list json) : option str :=
         match l with
         | [] => Some []
         | e :: rest =>
             match match e with JNull => Some [] | _ => ToString e end with
             | None => None
             | Some s =>
                 match rest with
                 | [] => Some s
                 | _ :: _ =>
                     match join rest with
                     | Some t => Some (s ++ [44%N] ++ t)
                     | None => None
                     end
                 end
             end
         end) elements
  | JObject properties =>
      if JSON.has_property (lit "toString") properties then None
      else Some (lit "[object Object]")
  end.

(** The text of [renderNote]: the index plus one, a full stop, a space,
    the item. *)
Definition renderNote (item : json) (index : nat) : option str :=
  s ← ToString item; Some (index_string (index + 1) ++ lit ". " ++ s).

(** [keyExtractor]: the item, a hyphen, the index. *)
Definition keyExtractor (item : json) (index : nat) : option str :=
  s ← ToString item; Some (s ++ lit "-" ++ index_string index).

(** A row of the list: its key and its text. *)
Record row := { row_key : str; row_text : str }.

(** The rows of [data] from position [index] on. *)
Fixpoint rows_from (index : nat) (data : list json) : option (list row) :=
  match data with
  | [] => Some []
  | item :: rest =>
      k ← keyExtractor item index;
      t ← renderNote item index;
      rows ← rows_from (S index) rest;
      Some ({| row_key := k; row_text := t |} :: rows)
  end.

(** What [FlatList] shows for [data]: the text of [ListEmptyComponent], or
    the rows of the whole list (which of them are mounted at a time is left
    to the list). *)
Inductive list_view :=
  | EmptyText (text : str)
  | Rows (rows : list row).

Definition FlatList_view (data : list json) : option list_view :=
  match data with
  | [] => Some (EmptyText (lit "No notes yet"))
  | _ :: _ => rows ← rows_from 0 data; Some (Rows rows)
  end.

End Rows.

(** Number::toString for [literal_numbers]: the literal itself. *)
Definition literal_NumberToString : @Number literal_numbers -> str :=
  fun s => s.

(** * Properties *)

(** ** Reading back what [JSON.stringify] wrote *)

Section JSON_facts.
Context {num : NumberModel}.
Local Open Scope N_scope.

Lemma hex_value_digit (n : N) :
  n < 16 → JSON.hex_value (JSON.hex_digit n) = Some n.
Proof.
  intros Hn. destruct n as [|p]; [reflexivity|].
  do 4 (destruct p as [p|p|]; try reflexivity); lia.
Qed.

Lemma hex4_UnicodeEscape (c : N) (tail : str) :
  c < 65536 →
  JSON.parse_chars (JSON.UnicodeEscape c ++ tail)
  = JSON.push c (JSON.parse_chars tail).
Proof.
  intros Hc. unfold JSON.UnicodeEscape. cbn [app JSON.parse_chars].
  change (92 =? 34) with false. change (92 =? 92) with true.
  change (117 =? 117) with true. cbv iota.
  unfold JSON.hex4.
  rewrite !hex_value_digit by (apply N.mod_upper_bound; lia).
  cbn [mbind option_bind].
  assert (E : ((c / 4096 mod 16 * 16 + c / 256 mod 16) * 16 + c / 16 mod 16) * 16
              + c mod 16 = c).
  { assert (H3 : c / 4096 < 16) by (apply N.Div0.div_lt_upper_bound; lia).
    rewrite (N.mod_small _ _ H3).
    replace (c / 4096) with (c / 16 / 16 / 16) in *
      by (rewrite !N.Div0.div_div; reflexivity).
    replace (c / 256) with (c / 16 / 16) by (rewrite !N.Div0.div_div; reflexivity).
    pose proof (N.Div0.div_mod c 16) as H0.
    pose proof (N.Div0.div_mod (c / 16) 16) as H1.
    pose proof (N.Div0.div_mod (c / 16 / 16) 16) as H2.
    set (q1 := c / 16) in *. set (q2 := q1 / 16) in *. set (q3 := q2 / 16) in *.
    clearbody q3. clearbody q2. clearbody q1. 
    set (r0 := c mod 16) in *. set (r1 := q1 mod 16) in *. set (r2 := q2 mod 16) in *.
    clearbody r0 r1 r2. lia. }
  rewrite E. reflexivity.
Qed.

Lemma is_leading_surrogate_range (c : N) :
  JSON.is_leading_surrogate c = true → 55296 <= c <= 56319.
Proof.
  unfold JSON.is_leading_surrogate. intros H.
  apply andb_true_iff in H as [H1 H2].
  apply N.leb_le in H1, H2. split; assumption.
Qed.

Lemma is_trailing_surrogate_range (c : N) :
  JSON.is_trailing_surrogate c = true → 56320 <= c <= 57343.
Proof.
  unfold JSON.is_trailing_surrogate. intros H.
  apply andb_true_iff in H as [H1 H2].
  apply N.leb_le in H1, H2. split; assumption.
Qed.

Lemma parse_chars_plain (c : N) (tail : str) :
  c ≠ 34 → c ≠ 92 → 32 <= c →
  JSON.parse_chars (c :: tail) = JSON.push c (JSON.parse_chars tail).
Proof.
  intros H1 H2 H3. cbn [JSON.parse_chars].
  destruct (N.eqb_spec c 34); [done|].
  destruct (N.eqb_spec c 92); [done|].
  destruct (N.ltb_spec c 32); [lia|]. reflexivity.
Qed.

Lemma parse_chars_quote_unit (c : N) (tail : str) :
  JSON.parse_chars (JSON.quote_unit c ++ tail)
  = JSON.push c (JSON.parse_chars tail).
Proof.
  unfold JSON.quote_unit.
  repeat match goal with
  | |- context [if ?x =? ?k then _ else _] =>
      destruct (N.eqb_spec x k); [subst; reflexivity|]
  end.
  destruct (c <? 32) eqn:Hlt; cbn [orb].
  - apply hex4_UnicodeEscape. apply N.ltb_lt in Hlt. lia.
  - apply N.ltb_ge in Hlt.
    destruct (JSON.is_leading_surrogate c) eqn:Hl; cbn [orb].
    + apply hex4_UnicodeEscape. apply is_leading_surrogate_range in Hl. lia.
    + destruct (JSON.is_trailing_surrogate c) eqn:Ht.
      * apply hex4_UnicodeEscape. apply is_trailing_surrogate_range in Ht. lia.
      * apply parse_chars_plain; assumption.
Qed.

Lemma parse_chars_surrogate (c : N) (tail : str) :
  55296 <= c →
  JSON.parse_chars (c :: tail) = JSON.push c (JSON.parse_chars tail).
Proof. intros H. apply parse_chars_plain; lia. Qed.

(** Reading back a quoted string gives the string. *)
Lemma parse_chars_quote_units (s rest : str) :
  JSON.parse_chars (JSON.quote_units s ++ 34 :: rest) = Some (s, rest).
Proof.
  remember (length s) as n eqn:Hn.
  revert s Hn. induction n as [n IH] using lt_wf_ind. intros s Hn.
  destruct s as [|c r]; [reflexivity|].
  cbn [JSON.quote_units].
  assert (Hr : JSON.parse_chars (JSON.quote_unit c ++ JSON.quote_units r ++ 34 :: rest)
               = Some (c :: r, rest)).
  { rewrite parse_chars_quote_unit.
    rewrite (IH (length r)); [reflexivity| simpl in Hn; lia | reflexivity]. }
  destruct (JSON.is_leading_surrogate c) eqn:Hl.
  - destruct r as [|d r'].
    + exact Hr.
    + destruct (JSON.is_trailing_surrogate d) eqn:Ht.
      * apply is_leading_surrogate_range in Hl.
        apply is_trailing_surrogate_range in Ht.
        cbn [app]. rewrite !parse_chars_surrogate by lia.
        rewrite (IH (length r')); [reflexivity| simpl in Hn; lia | reflexivity].
      * rewrite <- app_assoc. exact Hr.
  - rewrite <- app_assoc. exact Hr.
Qed.

Lemma skip_ws_head (c : N) (r : str) :
  JSON.is_ws c = false → JSON.skip_ws (c :: r) = c :: r.
Proof. intros H. cbn. rewrite H. reflexivity. Qed.

Lemma parse_value_string (fuel : nat) (s rest : str) :
  JSON.parse_value (S fuel) (JSON.QuoteJSONString s ++ rest)
  = Some (JString s, rest).
Proof.
  unfold JSON.QuoteJSONString. cbn [app JSON.parse_value].
  change (34 =? 34) with true. cbv iota.
  rewrite <- app_assoc. cbn [app].
  rewrite parse_chars_quote_units. reflexivity.
Qed.

Lemma parse_elements_S (fuel : nat) (s : str) :
  JSON.parse_elements (S fuel) s
  = '(v, r) ← JSON.parse_value fuel s;
    match JSON.skip_ws r with
    | [] => None
    | d :: r' =>
        if d =? 44 then
          '(vs, rest) ← JSON.parse_elements fuel (JSON.skip_ws r');
          Some (v :: vs, rest)
        else if d =? 93 then Some ([v], r')
        else None
    end.
Proof. reflexivity. Qed.

Lemma join_comma_cons (p q : str) (rest : list str) :
  JSON.join_comma (p :: q :: rest) = p ++ [44] ++ JSON.join_comma (q :: rest).
Proof. reflexivity. Qed.

Lemma skip_ws_join_comma (s : str) (l : list str) (tl : str) :
  JSON.skip_ws (JSON.join_comma (List.map JSON.QuoteJSONString (s :: l)) ++ tl)
  = JSON.join_comma (List.map JSON.QuoteJSONString (s :: l)) ++ tl.
Proof. destruct l; reflexivity. Qed.

(** The elements of a serialised array of strings are read back in order. *)
Lemma parse_elements_strings (l : list str) (s : str) (fuel : nat) (rest : str) :
  (length l < fuel)%nat →
  JSON.parse_elements (S fuel)
    (JSON.join_comma (List.map JSON.QuoteJSONString (s :: l)) ++ 93 :: rest)
  = Some (List.map JString (s :: l), rest).
Proof.
  revert s fuel. induction l as [|s' l IH]; intros s fuel Hf;
    (destruct fuel as [|fuel]; [simpl in Hf; lia|]); rewrite parse_elements_S.
  - cbn [List.map JSON.join_comma]. rewrite parse_value_string. reflexivity.
  - cbn [List.map]. rewrite join_comma_cons. rewrite <- !app_assoc.
    rewrite parse_value_string. cbn [app mbind option_bind].
    rewrite skip_ws_head by reflexivity. change (44 =? 44) with true. cbv iota.
    change (JSON.QuoteJSONString s' :: List.map JSON.QuoteJSONString l)
      with (List.map JSON.QuoteJSONString (s' :: l)).
    rewrite skip_ws_join_comma. rewrite IH by (simpl in Hf; lia). reflexivity.
Qed.

Lemma stringify_strings (l : list str) :
  JSON.stringify (JArray (List.map JString l))
  = 91 :: JSON.join_comma (List.map JSON.QuoteJSONString l) ++ [93].
Proof.
  cbn [JSON.stringify app]. rewrite List.map_map. reflexivity.
Qed.

Lemma parse_strings (l : list str) :
  JSON.parse (JSON.stringify (JArray (List.map JString l)))
  = Some (JArray (List.map JString l)).
Proof.
  rewrite stringify_strings. unfold JSON.parse.
  rewrite skip_ws_head by reflexivity.
  set (text := 91 :: _).
  assert (Hlen : (length l < length text)%nat).
  { subst text. cbn [length]. rewrite length_app.
    enough (length l <= length (JSON.join_comma (List.map JSON.QuoteJSONString l)))%nat by lia.
    clear. induction l as [|s l IH]; [simpl; lia|].
    destruct l as [|s' l].
    - cbn. rewrite length_app. simpl. lia.
    - cbn [List.map] in *. rewrite join_comma_cons.
      rewrite !length_app. simpl in *. lia. }
  replace (2 * length text + 1)%nat with (S (2 * length text)) by lia.
  subst text. cbn [JSON.parse_value]. change (91 =? 34) with false.
  change (91 =? 91) with true. cbv iota.
  destruct l as [|s l].
  - reflexivity.
  - rewrite skip_ws_join_comma.
    assert (Hh : ∃ tl, JSON.join_comma (List.map JSON.QuoteJSONString (s :: l)) ++ [93] = 34 :: tl).
    { destruct l; eexists; reflexivity. }
    destruct Hh as [tl Htl]. rewrite Htl. change (34 =? 93) with false. cbv iota.
    rewrite <- Htl.
    remember (2 * length _)%nat as f eqn:Hf.
    destruct f as [|f]; [simpl in Hf; lia|].
    rewrite parse_elements_strings; [reflexivity|].
    simpl in Hlen, Hf. lia.
Qed.
End JSON_facts.

(** ** The parser has enough fuel *)

Section Fuel.
Context {num : NumberModel}.
Local Open Scope N_scope.

Lemma parse_value_S (fuel : nat) (s : str) :
  JSON.parse_value (S fuel) s
  = match s with
    | [] => None
    | c :: r =>
        if c =? 34 then
          '(t, rest) ← JSON.parse_chars r; Some (JString t, rest)
        else if c =? 91 then
          match JSON.skip_ws r with
          | [] => None
          | d :: r' =>
              if d =? 93 then Some (JArray [], r')
              else '(vs, rest) ← JSON.parse_elements fuel (d :: r');
                   Some (JArray vs, rest)
          end
        else if c =? 123 then
          match JSON.skip_ws r with
          | [] => None
          | d :: r' =>
              if d =? 125 then Some (JObject [], r')
              else '(ms, rest) ← JSON.parse_members fuel (d :: r');
                   Some (JObject (JSON.object_of ms), rest)
          end
        else if c =? 116 then
          rest ← strip_prefix (lit "true") s; Some (JBool true, rest)
        else if c =? 102 then
          rest ← strip_prefix (lit "false") s; Some (JBool false, rest)
        else if c =? 110 then
          rest ← strip_prefix (lit "null") s; Some (JNull, rest)
        else
          '(l, rest) ← JSON.parse_number s;
          Some (JNumber (StringToNumber l), rest)
    end.
Proof. reflexivity. Qed.

Lemma parse_members_S (fuel : nat) (s : str) :
  JSON.parse_members (S fuel) s
  = match s with
    | [] => None
    | c :: r =>
        if c =? 34 then
          '(k, r1) ← JSON.parse_chars r;
          match JSON.skip_ws r1 with
          | [] => None
          | d :: r2 =>
              if d =? 58 then
                '(v, r3) ← JSON.parse_value fuel (JSON.skip_ws r2);
                match JSON.skip_ws r3 with
                | [] => None
                | e :: r4 =>
                    if e =? 44 then
                      '(ms, rest) ← JSON.parse_members fuel (JSON.skip_ws r4);
                      Some ((k, v) :: ms, rest)
                    else if e =? 125 then Some ([(k, v)], r4)
                    else None
                end
              else None
          end
        else None
    end.
Proof. reflexivity. Qed.

Lemma skip_ws_length (s : str) : (length (JSON.skip_ws s) <= length s)%nat.
Proof.
  induction s as [|c r IH]; cbn [JSON.skip_ws]; [lia|].
  destruct (JSON.is_ws c); cbn [length]; lia.
Qed.

Lemma parse_chars_length (s t rest : str) :
  JSON.parse_chars s = Some (t, rest) → (length rest < length s)%nat.
Proof.
  remember (length s) as n eqn:Hn. revert s t rest Hn.
  induction n as [n IH] using lt_wf_ind. intros s t rest Hn H.
  destruct s as [|c r]; [discriminate|]. cbn [JSON.parse_chars] in H.
  assert (Hpush : ∀ u r0, (length r0 < n)%nat →
            JSON.push u (JSON.parse_chars r0) = Some (t, rest) →
            (length rest < n)%nat).
  { intros u r0 Hr0 Hp. unfold JSON.push in Hp.
    destruct (JSON.parse_chars r0) as [[t0 rest0]|] eqn:E; [|discriminate].
    cbn in Hp. injection Hp as _ <-.
    pose proof (IH _ Hr0 r0 t0 rest0 eq_refl E). lia. }
  destruct (c =? 34).
  { injection H as _ <-. subst n. cbn [length]. lia. }
  destruct (c =? 92).
  - destruct r as [|e r']; [discriminate|].
    destruct (e =? 117).
    + destruct r' as [|h1 [|h2 [|h3 [|h4 r'']]]]; try discriminate.
      destruct (JSON.hex4 h1 h2 h3 h4); [|discriminate].
      eapply Hpush; [|exact H]. subst n. cbn [length]. lia.
    + destruct (JSON.escape_char e); [|discriminate].
      eapply Hpush; [|exact H]. subst n. cbn [length]. lia.
  - destruct (c <? 32); [discriminate|].
    eapply Hpush; [|exact H]. subst n. cbn [length]. lia.
Qed.

Lemma digits_length (s ds rest : str) :
  JSON.digits s = (ds, rest) → (length rest <= length s)%nat.
Proof.
  revert ds rest. induction s as [|c r IH]; intros ds rest H; cbn [JSON.digits] in H.
  - injection H as _ <-. lia.
  - destruct (JSON.is_digit c).
    + destruct (JSON.digits r) as [ds0 rest0] eqn:E. injection H as _ <-.
      pose proof (IH _ _ eq_refl). cbn [length]. lia.
    + injection H as _ <-. lia.
Qed.

Lemma strip_prefix_length (p s rest : str) :
  strip_prefix p s = Some rest → (length rest + length p = length s)%nat.
Proof.
  revert s. induction p as [|a p IH]; intros s H; cbn [strip_prefix] in H.
  - injection H as <-. cbn [length]. lia.
  - destruct s as [|c r]; [discriminate|]. destruct (c =? a); [|discriminate].
    apply IH in H. cbn [length]. lia.
Qed.

Lemma parse_number_length (s l rest : str) :
  JSON.parse_number s = Some (l, rest) → (length rest < length s)%nat.
Proof.
  unfold JSON.parse_number. intros H.
  destruct (JSON.parse_sign s) as [sign s1] eqn:Es.
  assert (H1 : (length s1 <= length s)%nat).
  { unfold JSON.parse_sign in Es. destruct s as [|c r].
    - injection Es as _ <-. lia.
    - destruct (c =? 45); injection Es as _ <-; cbn [length]; lia. }
  destruct (JSON.parse_int s1) as [[i s2]|] eqn:Ei; [|discriminate].
  assert (H2 : (length s2 < length s1)%nat).
  { unfold JSON.parse_int in Ei. destruct s1 as [|c r]; [discriminate|].
    destruct (c =? 48).
    - injection Ei as _ <-. cbn [length]. lia.
    - destruct (JSON.is_digit c); [|discriminate].
      destruct (JSON.digits r) as [ds rest0] eqn:Ed. injection Ei as _ <-.
      apply digits_length in Ed. cbn [length]. lia. }
  cbn [mbind option_bind] in H.
  destruct (JSON.parse_frac s2) as [[f s3]|] eqn:Ef; [|discriminate].
  assert (H3 : (length s3 <= length s2)%nat).
  { unfold JSON.parse_frac in Ef. destruct s2 as [|c r].
    - injection Ef as _ <-. lia.
    - destruct (c =? 46).
      + destruct (JSON.digits r) as [ds rest0] eqn:Ed.
        apply digits_length in Ed.
        destruct ds; [discriminate|]. injection Ef as _ <-. cbn [length]. lia.
      + injection Ef as _ <-. lia. }
  cbn [mbind option_bind] in H.
  destruct (JSON.parse_exp s3) as [[e s4]|] eqn:Ee; [|discriminate].
  assert (H4 : (length s4 <= length s3)%nat).
  { unfold JSON.parse_exp in Ee. destruct s3 as [|c r].
    - injection Ee as _ <-. lia.
    - destruct ((c =? 101) || (c =? 69)).
      + destruct (match r with
                  | [] => ([], r)
                  | d :: r' => if (d =? 43) || (d =? 45) then ([d], r') else ([], r)
                  end) as [sg r1] eqn:Esg.
        assert (length r1 <= length r)%nat.
        { destruct r as [|d r'].
          - injection Esg as _ <-. lia.
          - destruct ((d =? 43) || (d =? 45)); injection Esg as _ <-;
              cbn [length]; lia. }
        destruct (JSON.digits r1) as [ds rest0] eqn:Ed.
        apply digits_length in Ed.
        destruct ds; [discriminate|]. injection Ee as _ <-. cbn [length]. lia.
      + injection Ee as _ <-. lia. }
  cbn [mbind option_bind] in H. injection H as _ <-. lia.
Qed.

Ltac skip_ws_cases r d r' :=
  let E := fresh "Ews" in
  let L := fresh "Lws" in
  pose proof (skip_ws_length r) as L;
  destruct (JSON.skip_ws r) as [|d r'] eqn:E; [discriminate|];
  cbn [length] in L.

(** A value, a run of elements and a run of members each use up at least
    one character. *)
Lemma parse_consumes (fuel : nat) :
  (∀ s v rest, JSON.parse_value fuel s = Some (v, rest) →
               (length rest < length s)%nat)
  ∧ (∀ s vs rest, JSON.parse_elements fuel s = Some (vs, rest) →
                  (length rest < length s)%nat)
  ∧ (∀ s ms rest, JSON.parse_members fuel s = Some (ms, rest) →
                  (length rest < length s)%nat).
Proof.
  induction fuel as [|fuel (IHv & IHe & IHm)];
    [split; [|split]; intros; discriminate|].
  split; [|split].
  - intros s v rest H. rewrite parse_value_S in H.
    destruct s as [|c r]; [discriminate|].
    destruct (c =? 34).
    { destruct (JSON.parse_chars r) as [[t rest0]|] eqn:E; [|discriminate].
      cbn in H. injection H as _ <-. apply parse_chars_length in E.
      cbn [length]. lia. }
    destruct (c =? 91).
    { skip_ws_cases r d r'. destruct (d =? 93).
      - injection H as _ <-. cbn [length]. lia.
      - destruct (JSON.parse_elements fuel (d :: r')) as [[vs rest0]|] eqn:E;
          [|discriminate].
        cbn in H. injection H as _ <-. apply IHe in E. cbn [length] in *. lia. }
    destruct (c =? 123).
    { skip_ws_cases r d r'. destruct (d =? 125).
      - injection H as _ <-. cbn [length]. lia.
      - destruct (JSON.parse_members fuel (d :: r')) as [[ms rest0]|] eqn:E;
          [|discriminate].
        cbn in H. injection H as _ <-. apply IHm in E. cbn [length] in *. lia. }
    assert (Hlit : ∀ (p : str) (w : json),
              p ≠ [] →
              (rest0 ← strip_prefix p (c :: r); Some (w, rest0)) = Some (v, rest) →
              (length rest < length (c :: r))%nat).
    { intros p w Hp Hl.
      destruct (strip_prefix p (c :: r)) as [rest0|] eqn:E; [|discriminate].
      cbn in Hl. injection Hl as _ <-. apply strip_prefix_length in E.
      destruct p; [done|]. cbn [length] in *. lia. }
    destruct (c =? 116); [eapply Hlit; [|exact H]; done|].
    destruct (c =? 102); [eapply Hlit; [|exact H]; done|].
    destruct (c =? 110); [eapply Hlit; [|exact H]; done|].
    destruct (JSON.parse_number (c :: r)) as [[l rest0]|] eqn:E; [|discriminate].
    cbn in H. injection H as _ <-. apply parse_number_length in E. exact E.
  - intros s vs rest H. rewrite parse_elements_S in H.
    destruct (JSON.parse_value fuel s) as [[v r]|] eqn:E; [|discriminate].
    cbn [mbind option_bind] in H. apply IHv in E.
    skip_ws_cases r d r'. destruct (d =? 44).
    + pose proof (skip_ws_length r').
      destruct (JSON.parse_elements fuel (JSON.skip_ws r')) as [[vs0 rest0]|] eqn:E';
        [|discriminate].
      cbn in H. injection H as _ <-. apply IHe in E'. lia.
    + destruct (d =? 93); [|discriminate]. injection H as _ <-. lia.
  - intros s ms rest H. rewrite parse_members_S in H.
    destruct s as [|c r]; [discriminate|].
    destruct (c =? 34); [|discriminate].
    destruct (JSON.parse_chars r) as [[k r1]|] eqn:Ek; [|discriminate].
    cbn [mbind option_bind] in H. apply parse_chars_length in Ek.
    skip_ws_cases r1 d r2. destruct (d =? 58); [|discriminate].
    pose proof (skip_ws_length r2).
    destruct (JSON.parse_value fuel (JSON.skip_ws r2)) as [[v r3]|] eqn:Ev;
      [|discriminate].
    cbn [mbind option_bind] in H. apply IHv in Ev.
    skip_ws_cases r3 e r4. destruct (e =? 44).
    + pose proof (skip_ws_length r4).
      destruct (JSON.parse_members fuel (JSON.skip_ws r4)) as [[ms0 rest0]|] eqn:Em;
        [|discriminate].
      cbn in H. injection H as _ <-. apply IHm in Em. cbn [length]. lia.
    + destruct (e =? 125); [|discriminate]. injection H as _ <-.
      cbn [length]. lia.
Qed.

(** Above the bound that [JSON.parse] uses the result does not depend on
    the fuel: a [None] is a syntax error, never a lack of fuel. *)
Lemma fuel_irrelevant (n : nat) :
  ∀ s : str, (length s <= n)%nat →
  (∀ f1 f2, (2 * length s + 1 <= f1)%nat → (2 * length s + 1 <= f2)%nat →
            JSON.parse_value f1 s = JSON.parse_value f2 s)
  ∧ (∀ f1 f2, (2 * length s + 2 <= f1)%nat → (2 * length s + 2 <= f2)%nat →
              JSON.parse_elements f1 s = JSON.parse_elements f2 s)
  ∧ (∀ f1 f2, (2 * length s + 2 <= f1)%nat → (2 * length s + 2 <= f2)%nat →
              JSON.parse_members f1 s = JSON.parse_members f2 s).
Proof.
  induction n as [n IH] using lt_wf_ind. intros s Hs.
  assert (IHe : ∀ s' f1 f2, (length s' < length s)%nat →
            (2 * length s' + 2 <= f1)%nat → (2 * length s' + 2 <= f2)%nat →
            JSON.parse_elements f1 s' = JSON.parse_elements f2 s').
  { intros s' f1 f2 Hlt. destruct s as [|c r]; [simpl in Hlt; lia|].
    cbn [length] in *. destruct n as [|n]; [lia|].
    apply (IH n); lia. }
  assert (IHm : ∀ s' f1 f2, (length s' < length s)%nat →
            (2 * length s' + 2 <= f1)%nat → (2 * length s' + 2 <= f2)%nat →
            JSON.parse_members f1 s' = JSON.parse_members f2 s').
  { intros s' f1 f2 Hlt. destruct s as [|c r]; [simpl in Hlt; lia|].
    cbn [length] in *. destruct n as [|n]; [lia|].
    apply (IH n); lia. }
  assert (IHv : ∀ s' f1 f2, (length s' < length s)%nat →
            (2 * length s' + 1 <= f1)%nat → (2 * length s' + 1 <= f2)%nat →
            JSON.parse_value f1 s' = JSON.parse_value f2 s').
  { intros s' f1 f2 Hlt. destruct s as [|c r]; [simpl in Hlt; lia|].
    cbn [length] in *. destruct n as [|n]; [lia|].
    apply (IH n); lia. }
  clear IH.
  assert (Hv : ∀ f1 f2, (2 * length s + 1 <= f1)%nat → (2 * length s + 1 <= f2)%nat →
            JSON.parse_value f1 s = JSON.parse_value f2 s).
  { intros f1 f2 H1 H2.
    destruct f1 as [|f1]; [lia|]. destruct f2 as [|f2]; [lia|].
    rewrite !parse_value_S. destruct s as [|c r]; [reflexivity|].
    cbn [length] in *.
    destruct (c =? 34); [reflexivity|].
    destruct (c =? 91).
    { pose proof (skip_ws_length r) as L.
      destruct (JSON.skip_ws r) as [|d r']; [reflexivity|]. cbn [length] in L.
      destruct (d =? 93); [reflexivity|].
      rewrite (IHe (d :: r') f1 f2); cbn [length]; [reflexivity|lia..]. }
    destruct (c =? 123).
    { pose proof (skip_ws_length r) as L.
      destruct (JSON.skip_ws r) as [|d r']; [reflexivity|]. cbn [length] in L.
      destruct (d =? 125); [reflexivity|].
      rewrite (IHm (d :: r') f1 f2); cbn [length]; [reflexivity|lia..]. }
    reflexivity. }
  split; [exact Hv|]. split.
  - intros f1 f2 H1 H2.
    destruct f1 as [|f1]; [lia|]. destruct f2 as [|f2]; [lia|].
    rewrite !parse_elements_S. rewrite (Hv f1 f2) by lia.
    destruct (JSON.parse_value f2 s) as [[v r]|] eqn:E; [|reflexivity].
    cbn [mbind option_bind]. apply parse_consumes in E.
    pose proof (skip_ws_length r) as L.
    destruct (JSON.skip_ws r) as [|d r']; [reflexivity|]. cbn [length] in L.
    destruct (d =? 44); [|reflexivity].
    pose proof (skip_ws_length r').
    rewrite (IHe (JSON.skip_ws r') f1 f2); [reflexivity|lia..].
  - intros f1 f2 H1 H2.
    destruct f1 as [|f1]; [lia|]. destruct f2 as [|f2]; [lia|].
    rewrite !parse_members_S. destruct s as [|c r]; [reflexivity|].
    cbn [length] in *.
    destruct (c =? 34); [|reflexivity].
    destruct (JSON.parse_chars r) as [[k r1]|] eqn:Ek; [|reflexivity].
    cbn [mbind option_bind]. apply parse_chars_length in Ek.
    pose proof (skip_ws_length r1) as L1.
    destruct (JSON.skip_ws r1) as [|d r2]; [reflexivity|]. cbn [length] in L1.
    destruct (d =? 58); [|reflexivity].
    pose proof (skip_ws_length r2) as L2.
    rewrite (IHv (JSON.skip_ws r2) f1 f2) by (cbn [length]; lia).
    destruct (JSON.parse_value f2 (JSON.skip_ws r2)) as [[v r3]|] eqn:Ev;
      [|reflexivity].
    cbn [mbind option_bind]. apply parse_consumes in Ev.
    pose proof (skip_ws_length r3) as L3.
    destruct (JSON.skip_ws r3) as [|e r4]; [reflexivity|]. cbn [length] in L3.
    destruct (e =? 44); [|reflexivity].
    pose proof (skip_ws_length r4) as L4.
    rewrite (IHm (JSON.skip_ws r4) f1 f2); [reflexivity|cbn [length]; lia..].
Qed.

(** [JSON.parse] gives the parser all the fuel it can use. *)
Lemma parse_fuel_enough (text : str) (fuel : nat) :
  (2 * length text + 1 <= fuel)%nat →
  JSON.parse_value fuel (JSON.skip_ws text)
  = JSON.parse_value (2 * length text + 1) (JSON.skip_ws text).
Proof.
  intros H. pose proof (skip_ws_length text).
  apply (fuel_irrelevant (length (JSON.skip_ws text))); lia.
Qed.
End Fuel.

(** ** The operations *)

Section Properties.
Context {num : NumberModel}.

(** *** loadNotes *)

Lemma parse_empty : JSON.parse [] = None.
Proof. reflexivity. Qed.

Lemma parse_Some_truthy (text : str) (v : json) :
  JSON.parse text = Some v → str_truthy text = true.
Proof. destruct text; [discriminate|reflexivity]. Qed.

(** The [try] block of [loadNotes], by cases on what the store answers. *)
Lemma loadNotes_try_rejected (w : World) :
  loadNotes_try rejected w
  = (inl Rejection, issue (GetItem NOTES_KEY) (suspend w)).
Proof. reflexivity. Qed.

Lemma loadNotes_try_fulfilled (w : World) :
  loadNotes_try fulfilled w
  = let w1 := issue (GetItem NOTES_KEY) (suspend w) in
    match storage w !! NOTES_KEY with
    | Some text =>
        if str_truthy text then
          match JSON.parse text with
          | Some (JArray elements) => setNotes elements w1
          | Some _ =>
              (setNotesError (lit "Saved notes are corrupted");; setNotes []) w1
          | None => (inl SyntaxError, w1)
          end
        else (inr tt, w1)
    | None => (inr tt, w1)
    end.
Proof.
  unfold loadNotes_try, await, AsyncStorage.getItem, JSON_parse.
  unfold mbind at 1, M_bind at 1. cbn [storage issue suspend].
  destruct (storage w !! NOTES_KEY) as [text|]; [|reflexivity].
  destruct (str_truthy text); [|reflexivity].
  unfold mbind at 1, M_bind at 1.
  destruct (JSON.parse text) as [[ | | | | |]|]; reflexivity.
Qed.

(** When the [try] block of [loadNotes] throws: the read is rejected, or
    the stored text is truthy and is not JSON. *)
Lemma loadNotes_try_throws (io : settlement) (w : World) :
  (∃ e, (loadNotes_try io w).1 = inl e)
  ↔ io = rejected
    ∨ (∃ text, storage w !! NOTES_KEY = Some text
               ∧ str_truthy text = true ∧ JSON.parse text = None).
Proof.
  destruct io.
  - rewrite loadNotes_try_fulfilled. cbv zeta.
    destruct (storage w !! NOTES_KEY) as [text|] eqn:Es.
    + destruct (str_truthy text) eqn:Et.
      * destruct (JSON.parse text) as [v|] eqn:Ep.
        -- split.
           ++ intros [e He]. destruct v; discriminate.
           ++ intros [|(t & Ht & _ & Hp)]; [discriminate|]. congruence.
        -- split; [|intros _; eexists; reflexivity].
           intros _. right. exists text. done.
      * split; [intros [e He]; discriminate|].
        intros [|(t & Ht & Htt & _)]; [discriminate|]. congruence.
    + split; [intros [e He]; discriminate|].
      intros [|(t & Ht & _)]; discriminate.
  - split; [intros _; left; reflexivity|]. intros _. eexists. reflexivity.
Qed.

(** A throw in the [try] block of [loadNotes] only sets the error of the
    notes. *)
Lemma loadNotes_caught (io : settlement) (w : World) (e : exn) :
  (loadNotes_try io w).1 = inl e →
  notes (ui (loadNotes io w).2) = notes (ui w)
  ∧ notesError (ui (loadNotes io w).2) = lit "Failed to load notes"
  ∧ jokeError (ui (loadNotes io w).2) = jokeError (ui w).
Proof.
  intros He. unfold loadNotes, try_finally, try_catch. destruct io.
  - rewrite loadNotes_try_fulfilled in *. cbv zeta in *.
    destruct (storage w !! NOTES_KEY) as [text|]; [|discriminate].
    destruct (str_truthy text); [|discriminate].
    destruct (JSON.parse text) as [v|]; [destruct v; discriminate|].
    repeat split; reflexivity.
  - repeat split; reflexivity.
Qed.

(** C2. [loadNotes], run at startup, has exactly these outcomes. It always
    ends with [notesLoading] false. If the read is fulfilled and the slot is
    absent, the list stays empty and no error is set. If the slot holds JSON
    text for an array, the list becomes that array. If it holds JSON text
    for a value that is not an array, the list is set to empty and the error
    is "Saved notes are corrupted". If the read or the parse throws, that
    is if the read is rejected or the parse is reached (the text is truthy)
    and the text is not JSON, the list stays empty and the error is
    "Failed to load notes". *)
Theorem load_outcomes (io : settlement) (w : World) :
  ui w = initial_state →
  let w' := (loadNotes io w).2 in
  notesLoading (ui w') = false
  ∧ (io = fulfilled → storage w !! NOTES_KEY = None →
     notes (ui w') = [] ∧ notesError (ui w') = [])
  ∧ (∀ text elements,
       io = fulfilled → storage w !! NOTES_KEY = Some text →
       JSON.parse text = Some (JArray elements) →
       notes (ui w') = elements ∧ notesError (ui w') = [])
  ∧ (∀ text v,
       io = fulfilled → storage w !! NOTES_KEY = Some text →
       JSON.parse text = Some v → isArray v = false →
       notes (ui w') = [] ∧ notesError (ui w') = lit "Saved notes are corrupted")
  ∧ (∀ e, (loadNotes_try io w).1 = inl e →
       notes (ui w') = [] ∧ notesError (ui w') = lit "Failed to load notes")
  ∧ (io = rejected
     ∨ (∃ text, storage w !! NOTES_KEY = Some text
                ∧ str_truthy text = true ∧ JSON.parse text = None) →
     notes (ui w') = [] ∧ notesError (ui w') = lit "Failed to load notes").
Proof.
  intros Hinit w'. subst w'.
  assert (Hthrow : ∀ e, (loadNotes_try io w).1 = inl e →
            notes (ui (loadNotes io w).2) = []
            ∧ notesError (ui (loadNotes io w).2) = lit "Failed to load notes").
  { intros e He. destruct (loadNotes_caught io w e He) as (Hn & Hm & _).
    rewrite Hn, Hm, Hinit. split; reflexivity. }
  split; [|split; [|split; [|split; [|split]]]].
  - unfold loadNotes, try_finally, try_catch.
    destruct io; [|reflexivity]. rewrite loadNotes_try_fulfilled. cbv zeta.
    destruct (storage w !! NOTES_KEY) as [text|]; [|reflexivity].
    destruct (str_truthy text); [|reflexivity].
    destruct (JSON.parse text) as [v|]; [destruct v|]; reflexivity.
  - intros -> Hs. unfold loadNotes, try_finally, try_catch.
    rewrite loadNotes_try_fulfilled. cbv zeta. rewrite Hs.
    cbn. rewrite Hinit. done.
  - intros text elements -> Hs Hp. unfold loadNotes, try_finally, try_catch.
    rewrite loadNotes_try_fulfilled. cbv zeta.
    rewrite Hs, (parse_Some_truthy _ _ Hp), Hp. cbn. rewrite Hinit. done.
  - intros text v -> Hs Hp Hv. unfold loadNotes, try_finally, try_catch.
    rewrite loadNotes_try_fulfilled. cbv zeta.
    rewrite Hs, (parse_Some_truthy _ _ Hp), Hp.
    destruct v; try discriminate; split; reflexivity.
  - exact Hthrow.
  - intros Hc. apply loadNotes_try_throws in Hc as [e He]. exact (Hthrow e He).
Qed.

(** *** handleAddNote *)

Lemma handleAddNote_blank (io : settlement) (w : World) :
  trim (noteInput (ui w)) = [] → handleAddNote io w = (inr tt, w).
Proof.
  intros H. unfold handleAddNote. unfold mbind, M_bind, state.
  rewrite H. reflexivity.
Qed.

Lemma handleAddNote_nonblank (io : settlement) (w : World) :
  trim (noteInput (ui w)) ≠ [] →
  handleAddNote io w
  = (let updatedNotes := notes (ui w) ++ [JString (trim (noteInput (ui w)))] in
     setNotes updatedNotes;;
     setNoteInput [];;
     setNotesError [];;
     await (saveNotes io updatedNotes)) w.
Proof.
  intros H. unfold handleAddNote. unfold mbind at 1, M_bind at 1.
  unfold state. cbv beta iota zeta.
  destruct (trim (noteInput (ui w))) as [|c r]; [done|]. reflexivity.
Qed.

Lemma handleAddNote_notes (io : settlement) (w : World) :
  trim (noteInput (ui w)) ≠ [] →
  notes (ui (handleAddNote io w).2)
  = notes (ui w) ++ [JString (trim (noteInput (ui w)))].
Proof.
  intros H. rewrite handleAddNote_nonblank by assumption.
  destruct io; reflexivity.
Qed.

Lemma handleAddNote_issued (io : settlement) (w : World) :
  trim (noteInput (ui w)) ≠ [] →
  issued (handleAddNote io w).2
  = issued w
    ++ [SetItem NOTES_KEY
          (JSON.stringify
             (JArray (notes (ui w) ++ [JString (trim (noteInput (ui w)))])))].
Proof.
  intros H. rewrite handleAddNote_nonblank by assumption.
  destruct io; reflexivity.
Qed.

Lemma handleAddNote_fulfilled_storage (w : World) :
  trim (noteInput (ui w)) ≠ [] →
  storage (handleAddNote fulfilled w).2
  = <[NOTES_KEY :=
        JSON.stringify
          (JArray (notes (ui w) ++ [JString (trim (noteInput (ui w)))]))]>
      (storage w).
Proof. intros H. rewrite handleAddNote_nonblank by assumption. reflexivity. Qed.

Lemma handleAddNote_rejected_storage (w : World) :
  storage (handleAddNote rejected w).2 = storage w.
Proof.
  destruct (decide (trim (noteInput (ui w)) = [])) as [H|H].
  - rewrite handleAddNote_blank by assumption. reflexivity.
  - rewrite handleAddNote_nonblank by assumption. reflexivity.
Qed.

Lemma handleAddNote_notesError (io : settlement) (w : World) :
  trim (noteInput (ui w)) ≠ [] →
  notesError (ui (handleAddNote io w).2)
  = match io with
    | fulfilled => []
    | rejected => lit "Failed to save notes"
    end.
Proof.
  intros H. rewrite handleAddNote_nonblank by assumption.
  destruct io; reflexivity.
Qed.

(** A string made of blanks only trims to the empty string. *)
Lemma trimStart_blank (s : str) :
  forallb is_trim_space s = true → trimStart s = [].
Proof.
  induction s as [|c r IH]; [reflexivity|]. cbn [forallb trimStart].
  intros H. apply andb_true_iff in H as [Hc Hr]. rewrite Hc. auto.
Qed.

Lemma trim_blank (s : str) : forallb is_trim_space s = true → trim s = [].
Proof. intros H. unfold trim. rewrite trimStart_blank by assumption. reflexivity. Qed.

(** Loading again what a successful save wrote, for a list of strings. *)
Lemma reload_strings (w : World) (l : list str) :
  storage w !! NOTES_KEY = Some (JSON.stringify (JArray (List.map JString l))) →
  notes (ui (loadNotes fulfilled (restart w)).2) = List.map JString l.
Proof.
  intros Hs. unfold loadNotes, try_finally, try_catch.
  rewrite loadNotes_try_fulfilled. cbv zeta.
  change (storage (restart w)) with (storage w). rewrite Hs.
  rewrite (parse_Some_truthy _ _ (parse_strings l)), parse_strings.
  reflexivity.
Qed.

Lemma handleClearNotes_notes (io : settlement) (w : World) :
  notes (ui (handleClearNotes io w).2) = [].
Proof. destruct io; reflexivity. Qed.

Lemma handleClearNotes_fulfilled_storage (w : World) :
  storage (handleClearNotes fulfilled w).2 = delete NOTES_KEY (storage w).
Proof. reflexivity. Qed.

(** C1. When the typed text does not trim to the empty string,
    [handleAddNote] puts exactly one element, the trimmed text, at the end
    of the list: the list is one longer, every earlier element keeps its
    place, and the one write it issues, whether or not that write succeeds,
    carries the serialisation of the whole updated list. *)
Theorem add_appends_trimmed (io : settlement) (w : World) :
  trim (noteInput (ui w)) ≠ [] →
  let w' := (handleAddNote io w).2 in
  notes (ui w') = notes (ui w) ++ [JString (trim (noteInput (ui w)))]
  ∧ length (notes (ui w')) = S (length (notes (ui w)))
  ∧ (∀ i, i < length (notes (ui w)) → notes (ui w') !! i = notes (ui w) !! i)
  ∧ issued w'
    = issued w ++ [SetItem NOTES_KEY (JSON.stringify (JArray (notes (ui w'))))].
Proof.
  intros H w'. subst w'. rewrite handleAddNote_issued by assumption.
  rewrite handleAddNote_notes by assumption.
  split; [reflexivity|]. split; [|split; [|reflexivity]].
  - rewrite length_app. simpl. lia.
  - intros i Hi. apply lookup_app_l. exact Hi.
Qed.

(** C3. Whatever the list, the error and the rest of the world were, and
    whether the removal is fulfilled or rejected, [handleClearNotes] leaves
    the list empty; when the removal is rejected the error is
    "Failed to clear notes" and the list is empty all the same. *)
Theorem clear_empties_list (io : settlement) (w : World) :
  notes (ui (handleClearNotes io w).2) = []
  ∧ notes (ui (handleClearNotes rejected w).2) = []
  ∧ notesError (ui (handleClearNotes rejected w).2) = lit "Failed to clear notes".
Proof. split; [apply handleClearNotes_notes|]. split; reflexivity. Qed.

(** C4. After an add whose write is fulfilled the store holds the
    serialisation of the list on screen, no error is set, and, for a list
    of strings, starting again and loading gives the same list. After a
    clear whose removal is fulfilled the slot is absent, the list is empty
    and loading again gives the empty list. After an add whose write is
    rejected the new element stays in the list, the error is
    "Failed to save notes" and the store is as it was. *)
Theorem sync_after_mutation (w : World) :
  (trim (noteInput (ui w)) ≠ [] →
   let w' := (handleAddNote fulfilled w).2 in
   in_sync w' ∧ notesError (ui w') = []
   ∧ ∀ l, notes (ui w) = List.map JString l →
          notes (ui (loadNotes fulfilled (restart w')).2) = notes (ui w'))
  ∧ (let w' := (handleClearNotes fulfilled w).2 in
     in_sync w' ∧ storage w' !! NOTES_KEY = None
     ∧ notes (ui (loadNotes fulfilled (restart w')).2) = notes (ui w'))
  ∧ (trim (noteInput (ui w)) ≠ [] →
     let w' := (handleAddNote rejected w).2 in
     notes (ui w') = notes (ui w) ++ [JString (trim (noteInput (ui w)))]
     ∧ notesError (ui w') = lit "Failed to save notes"
     ∧ storage w' = storage w).
Proof.
  split; [|split]; cbv zeta.
  - intros H. split; [|split].
    + unfold in_sync. rewrite handleAddNote_fulfilled_storage by assumption.
      rewrite lookup_insert_eq. rewrite handleAddNote_notes by assumption.
      reflexivity.
    + rewrite handleAddNote_notesError by assumption. reflexivity.
    + intros l Hl. rewrite handleAddNote_notes by assumption.
      rewrite Hl. change [JString (trim (noteInput (ui w)))]
        with (List.map JString [trim (noteInput (ui w))]).
      rewrite <- List.map_app. apply reload_strings.
      rewrite handleAddNote_fulfilled_storage by assumption.
      rewrite lookup_insert_eq, Hl.
      change [JString (trim (noteInput (ui w)))]
        with (List.map JString [trim (noteInput (ui w))]).
      rewrite <- List.map_app. reflexivity.
  - assert (Hd : storage (handleClearNotes fulfilled w).2 !! NOTES_KEY = None).
    { rewrite handleClearNotes_fulfilled_storage. apply lookup_delete_eq. }
    split; [|split; [exact Hd|]].
    + unfold in_sync. rewrite Hd. reflexivity.
    + rewrite handleClearNotes_notes.
      unfold loadNotes, try_finally, try_catch.
      rewrite loadNotes_try_fulfilled. cbv zeta.
      change (storage (restart (handleClearNotes fulfilled w).2))
        with (storage (handleClearNotes fulfilled w).2).
      rewrite Hd. reflexivity.
  - intros H. split; [apply handleAddNote_notes; assumption|]. split.
    + rewrite handleAddNote_notesError by assumption. reflexivity.
    + apply handleAddNote_rejected_storage.
Qed.

(** C5. When the typed text trims to the empty string, [handleAddNote]
    returns at once and changes nothing: the list and its length, the
    store, the input field and the error are as before and no request is
    issued. ([trim_blank]: every text made only of blanks, the empty one
    included, trims to the empty string.) *)
Theorem add_blank_is_noop (io : settlement) (w : World) :
  trim (noteInput (ui w)) = [] →
  handleAddNote io w = (inr tt, w)
  ∧ length (notes (ui (handleAddNote io w).2)) = length (notes (ui w))
  ∧ storage (handleAddNote io w).2 = storage w
  ∧ noteInput (ui (handleAddNote io w).2) = noteInput (ui w)
  ∧ notesError (ui (handleAddNote io w).2) = notesError (ui w)
  ∧ issued (handleAddNote io w).2 = issued w.
Proof.
  intros H. rewrite handleAddNote_blank by assumption. done.
Qed.

(** C8. Serialising a list of strings and parsing the result gives the
    list back, in order, the empty list included; and loading after a
    successful save of a list of strings gives that list. *)
Theorem notes_round_trip (l : list str) :
  JSON.parse (JSON.stringify (JArray (List.map JString l)))
  = Some (JArray (List.map JString l))
  ∧ ∀ w : World,
      notes (ui (loadNotes fulfilled
                   (restart (saveNotes fulfilled (List.map JString l) w).2)).2)
      = List.map JString l.
Proof.
  split; [apply parse_strings|]. intros w. apply reload_strings.
  change (storage (saveNotes fulfilled (List.map JString l) w).2)
    with (<[NOTES_KEY := JSON.stringify (JArray (List.map JString l))]>
            (storage w)).
  apply lookup_insert_eq.
Qed.

(** *** handleFetchJoke *)

Lemma handleFetchJoke_failed (answer : option Response.t) (w : World) :
  answer = None ∨ (∃ r, answer = Some r ∧ Response.ok r = false) →
  ∃ later,
    handleFetchJoke answer w
    = (inr tt,
       {| ui := {| joke := joke (ui w);
                   jokeError := lit "Could not fetch a joke. Please try again.";
                   jokeLoading := false;
                   noteInput := noteInput (ui w); notes := notes (ui w);
                   notesError := notesError (ui w);
                   notesLoading := notesLoading (ui w) |};
          storage := storage w;
          issued := issued w ++ [Fetch JOKE_API_URL];
          frames := frames w ++ fetching (ui w) :: later |}).
Proof.
  intros [->|(r & -> & Hr)].
  - exists []. reflexivity.
  - exists []. unfold handleFetchJoke, handleFetchJoke_try, try_finally,
      try_catch, await, fetch, mbind, M_bind.
    cbn. rewrite Hr. reflexivity.
Qed.

(** C6. [handleFetchJoke] first clears the error and sets [jokeLoading]:
    that is the state on screen while the request is in flight. It always
    ends with [jokeLoading] false. On a transport failure or a response
    that is not ok the error is the fixed message and the joke is the one
    that was there before. On an ok response whose body reads as JSON the
    joke becomes that value and the error stays cleared. *)
Theorem fetch_joke_outcomes (answer : option Response.t) (w : World) :
  let w' := (handleFetchJoke answer w).2 in
  (∃ later, frames w' = frames w ++ fetching (ui w) :: later)
  ∧ jokeError (fetching (ui w)) = [] ∧ jokeLoading (fetching (ui w)) = true
  ∧ jokeLoading (ui w') = false
  ∧ (answer = None ∨ (∃ r, answer = Some r ∧ Response.ok r = false) →
     jokeError (ui w') = lit "Could not fetch a joke. Please try again."
     ∧ joke (ui w') = joke (ui w))
  ∧ (∀ r data, answer = Some r → Response.ok r = true →
       Response.body r = Some data →
       joke (ui w') = data ∧ jokeError (ui w') = []).
Proof.
  cbv zeta. split; [|split; [reflexivity|split; [reflexivity|split; [|split]]]].
  - destruct answer as [[[] [data|]]|];
      try (eexists; reflexivity).
    all: exists [fetching (ui w)];
      transitivity ((frames w ++ [fetching (ui w)]) ++ [fetching (ui w)]);
      [reflexivity|rewrite <- app_assoc; reflexivity].
  - destruct answer as [[[] [data|]]|]; reflexivity.
  - intros Hf. destruct (handleFetchJoke_failed answer w Hf) as [later ->].
    split; reflexivity.
  - intros [ok body] data -> Hok Hbody. cbn in Hok, Hbody. subst.
    split; reflexivity.
Qed.

(** *** The joke card *)

Lemma shows_joke_card_eq (st : State) :
  shows_joke_card st = ToBoolean (joke st) && negb (jokeLoading st).
Proof.
  unfold shows_joke_card, render_joke.
  destruct (jokeLoading st), (str_truthy (jokeError st)),
    (ToBoolean (joke st)); reflexivity.
Qed.

(** C7, as amended. The joke card is on screen exactly when the joke is
    truthy and [jokeLoading] is false. So it is hidden whenever
    [jokeLoading] is true, and with [jokeLoading] false it is shown whenever
    there is a joke, whatever the error is. *)
Theorem joke_card_rule (st : State) :
  shows_joke_card st = ToBoolean (joke st) && negb (jokeLoading st)
  ∧ (jokeLoading st = true → shows_joke_card st = false)
  ∧ (jokeLoading st = false →
     shows_joke_card st = ToBoolean (joke st)).
Proof.
  rewrite shows_joke_card_eq. split; [reflexivity|].
  split; intros ->; [apply andb_false_r|apply andb_true_r].
Qed.

(** *** No operation throws *)

(** C9. None of the operations throws: each returns normally whatever the
    outside world answers. Whenever the [try] block of an operation throws,
    the operation ends with its fixed message in the error cell of its own
    interaction ([notesError] for the notes, [jokeError] for the joke) and
    leaves the error of the other interaction alone. *)
Theorem failures_are_caught (io : settlement) (answer : option Response.t)
    (updatedNotes : list json) (w : World) :
  ((loadNotes io w).1 = inr tt
   ∧ (handleFetchJoke answer w).1 = inr tt
   ∧ (saveNotes io updatedNotes w).1 = inr tt
   ∧ (handleAddNote io w).1 = inr tt
   ∧ (handleClearNotes io w).1 = inr tt)
  ∧ (∀ e, (loadNotes_try io w).1 = inl e →
       notesError (ui (loadNotes io w).2) = lit "Failed to load notes"
       ∧ jokeError (ui (loadNotes io w).2) = jokeError (ui w))
  ∧ (∀ e, (handleFetchJoke_try answer
             ((setJokeError [];; setJokeLoading true) w).2).1 = inl e →
       jokeError (ui (handleFetchJoke answer w).2)
       = lit "Could not fetch a joke. Please try again."
       ∧ notesError (ui (handleFetchJoke answer w).2) = notesError (ui w))
  ∧ (∀ e, (saveNotes_try io updatedNotes w).1 = inl e →
       notesError (ui (saveNotes io updatedNotes w).2) = lit "Failed to save notes"
       ∧ jokeError (ui (saveNotes io updatedNotes w).2) = jokeError (ui w))
  ∧ (∀ e, (handleClearNotes_try io
             ((setNotes [];; setNotesError []) w).2).1 = inl e →
       notesError (ui (handleClearNotes io w).2) = lit "Failed to clear notes"
       ∧ jokeError (ui (handleClearNotes io w).2) = jokeError (ui w)).
Proof.
  split; [|split; [|split; [|split]]].
  - split; [|split; [|split; [|split]]].
    + unfold loadNotes, try_finally, try_catch.
      destruct io; [|reflexivity]. rewrite loadNotes_try_fulfilled. cbv zeta.
      destruct (storage w !! NOTES_KEY) as [text|]; [|reflexivity].
      destruct (str_truthy text); [|reflexivity].
      destruct (JSON.parse text) as [v|]; [destruct v|]; reflexivity.
    + destruct answer as [[[] [data|]]|]; reflexivity.
    + destruct io; reflexivity.
    + destruct (decide (trim (noteInput (ui w)) = [])) as [H|H].
      * rewrite handleAddNote_blank by assumption. reflexivity.
      * rewrite handleAddNote_nonblank by assumption. destruct io; reflexivity.
    + destruct io; reflexivity.
  - intros e He. destruct (loadNotes_caught io w e He) as (_ & Hm & Hj).
    split; assumption.
  - intros e He. destruct answer as [[[] [data|]]|]; try discriminate;
      split; reflexivity.
  - intros e He. destruct io; [discriminate|]. split; reflexivity.
  - intros e He. destruct io; [discriminate|]. split; reflexivity.
Qed.

(** *** A stored empty string *)

(** C10. When the slot holds a falsy text, that is the empty string,
    [loadNotes] does what it does on an absent slot: the list and the error
    are left as they were, [notesLoading] becomes false and nothing is
    thrown, although the text is not JSON: the parse is never reached. *)
Theorem load_falsy_slot (w : World) (text : str) :
  storage w !! NOTES_KEY = Some text → str_truthy text = false →
  let w' := (loadNotes fulfilled w).2 in
  notes (ui w') = notes (ui w)
  ∧ notesError (ui w') = notesError (ui w)
  ∧ notesLoading (ui w') = false
  ∧ (∀ e, (loadNotes_try fulfilled w).1 ≠ inl e)
  ∧ JSON.parse text = None
  ∧ ui w' = ui (loadNotes fulfilled (with_storage (delete NOTES_KEY) w)).2.
Proof.
  intros Hs Ht. destruct text; [|discriminate]. cbv zeta.
  assert (Hd : storage (with_storage (delete NOTES_KEY) w) !! NOTES_KEY = None)
    by apply lookup_delete_eq.
  unfold loadNotes, try_finally, try_catch.
  rewrite !loadNotes_try_fulfilled. cbv zeta. rewrite Hs, Hd.
  repeat split; try reflexivity. discriminate.
Qed.
End Properties.

(** ** Concrete runs *)

Section Runs.
#[local] Existing Instance literal_numbers.

Lemma add_appends_trimmed_witness :
  trim (noteInput (ui example_world)) ≠ []
  ∧ notes (ui (handleAddNote fulfilled example_world).2)
    = [JString (lit "Buy milk"); JString (lit "Call mom")]
  ∧ issued (handleAddNote fulfilled example_world).2
    = [SetItem NOTES_KEY
         (JSON.stringify
            (JArray [JString (lit "Buy milk"); JString (lit "Call mom")]))].
Proof.
  assert (H : trim (noteInput (ui example_world)) ≠ [])
    by (vm_compute; discriminate).
  destruct (add_appends_trimmed fulfilled example_world H) as (Hn & _ & _ & Hi).
  split; [exact H|]. split; [exact Hn|exact Hi].
Defined.

Lemma load_outcomes_witness :
  ui (startup_world (Some (JSON.stringify (JArray [JString (lit "Buy milk")]))))
  = initial_state
  ∧ notes (ui (loadNotes fulfilled
                 (startup_world
                    (Some (JSON.stringify (JArray [JString (lit "Buy milk")]))))).2)
    = [JString (lit "Buy milk")]
  ∧ notes (ui (loadNotes fulfilled (startup_world (Some (lit "{}")))).2) = []
  ∧ notesError (ui (loadNotes fulfilled (startup_world (Some (lit "{}")))).2)
    = lit "Saved notes are corrupted"
  ∧ notesError (ui (loadNotes fulfilled (startup_world (Some (lit "[1,")))).2)
    = lit "Failed to load notes"
  ∧ notesError (ui (loadNotes rejected (startup_world None)).2)
    = lit "Failed to load notes".
Proof.
  split; [reflexivity|]. split; [|split; [|split; [|split]]].
  - destruct (load_outcomes fulfilled
                (startup_world
                   (Some (JSON.stringify (JArray [JString (lit "Buy milk")]))))
                eq_refl) as (_ & _ & H & _).
    apply (H (JSON.stringify (JArray [JString (lit "Buy milk")]))
             [JString (lit "Buy milk")]); vm_compute; reflexivity.
  - destruct (load_outcomes fulfilled (startup_world (Some (lit "{}"))) eq_refl)
      as (_ & _ & _ & H & _).
    apply (H (lit "{}") (JObject [])); vm_compute; reflexivity.
  - destruct (load_outcomes fulfilled (startup_world (Some (lit "{}"))) eq_refl)
      as (_ & _ & _ & H & _).
    apply (H (lit "{}") (JObject [])); vm_compute; reflexivity.
  - destruct (load_outcomes fulfilled (startup_world (Some (lit "[1,"))) eq_refl)
      as (_ & _ & _ & _ & H & _).
    apply (H SyntaxError). vm_compute. reflexivity.
  - destruct (load_outcomes rejected (startup_world None) eq_refl)
      as (_ & _ & _ & _ & _ & H).
    apply H. left. reflexivity.
Defined.

Lemma sync_after_mutation_witness :
  trim (noteInput (ui example_world)) ≠ []
  ∧ notes (ui example_world) = List.map JString [lit "Buy milk"]
  ∧ in_sync (handleAddNote fulfilled example_world).2
  ∧ notes (ui (loadNotes fulfilled
                 (restart (handleAddNote fulfilled example_world).2)).2)
    = notes (ui (handleAddNote fulfilled example_world).2)
  ∧ in_sync (handleClearNotes fulfilled example_world).2
  ∧ notes (ui (handleAddNote rejected example_world).2)
    = [JString (lit "Buy milk"); JString (lit "Call mom")]
  ∧ storage (handleAddNote rejected example_world).2 = storage example_world.
Proof.
  assert (H : trim (noteInput (ui example_world)) ≠ [])
    by (vm_compute; discriminate).
  destruct (sync_after_mutation example_world) as (Ha & Hc & Hr).
  destruct (Ha H) as (Hs & _ & Hl). destruct Hc as (Hs' & _).
  destruct (Hr H) as (Hn & _ & Hst).
  split; [exact H|]. split; [reflexivity|]. split; [exact Hs|].
  split; [exact (Hl [lit "Buy milk"] eq_refl)|]. split; [exact Hs'|].
  split; [exact Hn|exact Hst].
Defined.

Lemma add_blank_is_noop_witness :
  trim (noteInput (ui blank_world)) = []
  ∧ handleAddNote fulfilled blank_world = (inr tt, blank_world)
  ∧ handleAddNote rejected blank_world = (inr tt, blank_world).
Proof.
  assert (H : trim (noteInput (ui blank_world)) = []) by reflexivity.
  split; [exact H|]. split.
  - exact (proj1 (add_blank_is_noop fulfilled blank_world H)).
  - exact (proj1 (add_blank_is_noop rejected blank_world H)).
Defined.

Lemma fetch_joke_outcomes_witness :
  joke (ui (handleFetchJoke (Some example_response) (startup_world None)).2)
  = example_joke
  ∧ jokeError (ui (handleFetchJoke None (startup_world None)).2)
    = lit "Could not fetch a joke. Please try again."
  ∧ joke (ui stale_joke_world) = example_joke.
Proof.
  split; [|split].
  - destruct (fetch_joke_outcomes (Some example_response) (startup_world None))
      as (_ & _ & _ & _ & _ & H).
    exact (proj1 (H example_response example_joke eq_refl eq_refl eq_refl)).
  - destruct (fetch_joke_outcomes None (startup_world None))
      as (_ & _ & _ & _ & H & _).
    exact (proj1 (H (or_introl eq_refl))).
  - destruct (fetch_joke_outcomes None
                (handleFetchJoke (Some example_response) (startup_world None)).2)
      as (_ & _ & _ & _ & H & _).
    exact (proj2 (H (or_introl eq_refl))).
Defined.

Lemma joke_card_rule_witness :
  jokeLoading (fetching (ui stale_joke_world)) = true
  ∧ shows_joke_card (fetching (ui stale_joke_world)) = false
  ∧ jokeLoading (ui stale_joke_world) = false
  ∧ shows_joke_card (ui stale_joke_world) = true.
Proof.
  split; [reflexivity|]. split; [|split; [reflexivity|]].
  - exact (proj1 (proj2 (joke_card_rule (fetching (ui stale_joke_world))))
             eq_refl).
  - exact (proj2 (proj2 (joke_card_rule (ui stale_joke_world))) eq_refl).
Defined.

(** C7 as the specification states it fails: after a joke was fetched and a
    second fetch failed, nothing is loading, the error message is there,
    and the joke card is on screen with the old joke. *)
Lemma joke_card_shown_with_error :
  jokeLoading (ui stale_joke_world) = false
  ∧ jokeError (ui stale_joke_world) ≠ []
  ∧ shows_joke_card (ui stale_joke_world) = true
  ∧ ¬ (∀ st : State,
         jokeLoading st = true ∨ jokeError st ≠ [] → shows_joke_card st = false).
Proof.
  assert (He : jokeError (ui stale_joke_world) ≠ [])
    by (vm_compute; discriminate).
  split; [reflexivity|]. split; [exact He|]. split; [reflexivity|].
  intros H. specialize (H (ui stale_joke_world) (or_intror He)).
  vm_compute in H. discriminate H.
Qed.

Lemma failures_are_caught_witness :
  (loadNotes_try rejected (startup_world None)).1 = inl Rejection
  ∧ notesError (ui (loadNotes rejected (startup_world None)).2)
    = lit "Failed to load notes"
  ∧ (handleAddNote rejected example_world).1 = inr tt
  ∧ notesError (ui (handleClearNotes rejected example_world).2)
    = lit "Failed to clear notes".
Proof.
  destruct (failures_are_caught rejected None [] (startup_world None))
    as (_ & Hl & _).
  destruct (failures_are_caught rejected None [] example_world)
    as ((_ & _ & _ & Ha & _) & _ & _ & _ & Hc).
  split; [reflexivity|]. split; [exact (proj1 (Hl Rejection eq_refl))|].
  split; [exact Ha|]. exact (proj1 (Hc Rejection eq_refl)).
Defined.

Lemma load_falsy_slot_witness :
  storage (startup_world (Some [])) !! NOTES_KEY = Some []
  ∧ str_truthy [] = false
  ∧ ui (loadNotes fulfilled (startup_world (Some []))).2
    = ui (loadNotes fulfilled (startup_world None)).2
  ∧ notesError (ui (loadNotes fulfilled (startup_world (Some []))).2) = [].
Proof.
  assert (Hs : storage (startup_world (Some [])) !! NOTES_KEY = Some [])
    by (vm_compute; reflexivity).
  destruct (load_falsy_slot (startup_world (Some [])) [] Hs eq_refl)
    as (_ & He & _ & _ & _ & Hu).
  split; [exact Hs|]. split; [reflexivity|]. split; [|exact He].
  rewrite Hu. vm_compute. reflexivity.
Defined.

End Runs.

(** ** Sample evaluations *)

Section Samples.
#[local] Existing Instance literal_numbers.
Local Open Scope N_scope.

Example trim_sample : trim (lit "  Call mom ") = lit "Call mom".
Proof. reflexivity. Qed.

Example trim_unicode_sample : trim [0xA0; 0x2003; 97; 32; 98; 0xFEFF; 10] = [97; 32; 98].
Proof. reflexivity. Qed.

Example stringify_escapes_sample :
  JSON.stringify (JString [34; 92; 10; 1; 0xD800; 0xD83D; 0xDE00])
  = [34; 92; 34; 92; 92; 92; 110; 92; 117; 48; 48; 48; 49;
     92; 117; 100; 56; 48; 48; 0xD83D; 0xDE00; 34].
Proof. reflexivity. Qed.

Example parse_nested_sample :
  JSON.parse (lit " [ 1 , [ ] , { } , true , null ] ")
  = Some (JArray [JNumber [49]; JArray []; JObject []; JBool true; JNull]).
Proof. reflexivity. Qed.

Example parse_leading_zero_sample : JSON.parse (lit "01") = None.
Proof. reflexivity. Qed.

Example parse_trailing_comma_sample : JSON.parse (lit "[1,]") = None.
Proof. reflexivity. Qed.

Example parse_blank_sample : JSON.parse (lit "   ") = None.
Proof. reflexivity. Qed.

(** "Buy milk" and "Call mom" are added, the application is started
    again: both notes are there, in the order they were added. *)
Example restart_scenario :
  let w1 := (handleAddNote fulfilled
               (setNoteInput (lit "Buy milk")
                  (loadNotes fulfilled (startup_world None)).2).2).2 in
  let w2 := (handleAddNote fulfilled (setNoteInput (lit "Call mom") w1).2).2 in
  notes (ui (loadNotes fulfilled (restart w2)).2)
  = [JString (lit "Buy milk"); JString (lit "Call mom")].
Proof. vm_compute. reflexivity. Qed.

(** Clearing three notes empties the list and removes the slot. *)
Example clear_scenario :
  let w := startup_world
             (Some (JSON.stringify
                      (JArray [JString [97]; JString [98]; JString [99]]))) in
  let w' := (handleClearNotes fulfilled (loadNotes fulfilled w).2).2 in
  length (notes (ui (loadNotes fulfilled w).2)) = 3%nat
  ∧ notes (ui w') = [] ∧ storage w' !! NOTES_KEY = None.
Proof. vm_compute. repeat split. Qed.

End Samples.

(** * Further properties *)

Section Further.
Context {num : NumberModel}.

Ltac load_cases io w :=
  unfold loadNotes, try_finally, try_catch;
  destruct io;
  [ rewrite loadNotes_try_fulfilled; cbv zeta;
    destruct (storage w !! NOTES_KEY) as [?text|];
    [ destruct (str_truthy text);
      [ destruct (JSON.parse text) as [[ | | | | | ]|] | ] | ]
  | ].

(** *** What each operation leaves alone *)

Lemma loadNotes_storage (io : settlement) (w : World) :
  storage (loadNotes io w).2 = storage w.
Proof. load_cases io w; reflexivity. Qed.

Lemma loadNotes_issued (io : settlement) (w : World) :
  issued (loadNotes io w).2 = issued w ++ [GetItem NOTES_KEY].
Proof. load_cases io w; reflexivity. Qed.

Lemma loadNotes_notesLoading (io : settlement) (w : World) :
  notesLoading (ui (loadNotes io w).2) = false.
Proof. load_cases io w; reflexivity. Qed.

Lemma loadNotes_other_cells (io : settlement) (w : World) :
  joke (ui (loadNotes io w).2) = joke (ui w)
  ∧ jokeError (ui (loadNotes io w).2) = jokeError (ui w)
  ∧ jokeLoading (ui (loadNotes io w).2) = jokeLoading (ui w)
  ∧ noteInput (ui (loadNotes io w).2) = noteInput (ui w).
Proof. load_cases io w; repeat split; reflexivity. Qed.

Lemma handleAddNote_noteInput (io : settlement) (w : World) :
  trim (noteInput (ui w)) ≠ [] → noteInput (ui (handleAddNote io w).2) = [].
Proof.
  intros H. rewrite handleAddNote_nonblank by assumption.
  destruct io; reflexivity.
Qed.

Lemma handleAddNote_other_cells (io : settlement) (w : World) :
  joke (ui (handleAddNote io w).2) = joke (ui w)
  ∧ jokeError (ui (handleAddNote io w).2) = jokeError (ui w)
  ∧ jokeLoading (ui (handleAddNote io w).2) = jokeLoading (ui w)
  ∧ notesLoading (ui (handleAddNote io w).2) = notesLoading (ui w).
Proof.
  destruct (decide (trim (noteInput (ui w)) = [])) as [H|H].
  - rewrite handleAddNote_blank by assumption. repeat split; reflexivity.
  - rewrite handleAddNote_nonblank by assumption.
    destruct io; repeat split; reflexivity.
Qed.




(** X1. [handleAddNote] clears the input, so pressing "Add note" a second
    time straight after a first time does nothing at all, whatever was
    typed and however the first write settled. *)
Theorem second_add_is_noop (io1 io2 : settlement) (w : World) :
  handleAddNote io2 (handleAddNote io1 w).2 = (inr tt, (handleAddNote io1 w).2).
Proof.
  apply handleAddNote_blank.
  destruct (decide (trim (noteInput (ui w)) = [])) as [H|H].
  - rewrite handleAddNote_blank by assumption. exact H.
  - rewrite handleAddNote_noteInput by assumption. reflexivity.
Qed.

(** X11. A joke fetch leaves the notes alone: the list, the input, the
    error and the busy flag of the notes and the whole store are as before,
    and the only request it issues is one fetch of the fixed address. *)
Theorem fetch_leaves_notes_alone (answer : option Response.t) (w : World) :
  let w' := (handleFetchJoke answer w).2 in
  notes (ui w') = notes (ui w)
  ∧ noteInput (ui w') = noteInput (ui w)
  ∧ notesError (ui w') = notesError (ui w)
  ∧ notesLoading (ui w') = notesLoading (ui w)
  ∧ storage w' = storage w
  ∧ issued w' = issued w ++ [Fetch JOKE_API_URL].
Proof. destruct answer as [[[] [data|]]|]; repeat split; reflexivity. Qed.

(** X12. Mounting, typing, adding and clearing leave the joke alone: the
    joke, its error and its busy flag are as before, and the event issues
    at most one request, a storage request on the notes slot, never a
    fetch. *)
Theorem notes_events_leave_joke_alone (e : event) (w : World) :
  (∀ answer, e ≠ PressGetJoke answer) →
  let w' := (handle e w).2 in
  joke (ui w') = joke (ui w)
  ∧ jokeError (ui w') = jokeError (ui w)
  ∧ jokeLoading (ui w') = jokeLoading (ui w)
  ∧ ∃ new, issued w' = issued w ++ new
           ∧ length new ≤ 1 ∧ Forall is_storage_call new.
Proof.
  intros He. destruct e as [io|text|answer|io|io]; cbn [handle]; cbv zeta.
  - destruct (loadNotes_other_cells io w) as (-> & -> & -> & _).
    repeat split. exists [GetItem NOTES_KEY].
    split; [apply loadNotes_issued|]. split; [simpl; lia|].
    repeat constructor.
  - repeat split. exists []. split; [symmetry; apply app_nil_r|].
    split; [simpl; lia|constructor].
  - destruct (He answer). reflexivity.
  - destruct (handleAddNote_other_cells io w) as (-> & -> & -> & _).
    repeat split.
    destruct (decide (trim (noteInput (ui w)) = [])) as [H|H].
    + rewrite handleAddNote_blank by assumption. exists [].
      split; [symmetry; apply app_nil_r|]. split; [simpl; lia|constructor].
    + eexists. split; [apply handleAddNote_issued; assumption|].
      split; [simpl; lia|]. repeat constructor.
  - destruct io; repeat split; exists [RemoveItem NOTES_KEY];
      (split; [reflexivity|]); (split; [simpl; lia|]); repeat constructor.
Qed.

(** X10. [loadNotes] only reads: the store is as before, the one request is
    the read of the notes slot, and the input field and the joke are not
    touched. *)
Theorem load_only_reads (io : settlement) (w : World) :
  let w' := (loadNotes io w).2 in
  storage w' = storage w
  ∧ issued w' = issued w ++ [GetItem NOTES_KEY]
  ∧ noteInput (ui w') = noteInput (ui w)
  ∧ joke (ui w') = joke (ui w).
Proof.
  cbv zeta. destruct (loadNotes_other_cells io w) as (Hj & _ & _ & Hi).
  split; [apply loadNotes_storage|]. split; [apply loadNotes_issued|].
  split; assumption.
Qed.

(** *** The text of an added note *)

Lemma trimStart_split (s : str) :
  ∃ before, s = before ++ trimStart s ∧ forallb is_trim_space before = true.
Proof.
  induction s as [|c r (before & Hr & Hb)]; [exists []; done|].
  cbn [trimStart]. destruct (is_trim_space c) eqn:Hc.
  - exists (c :: before). split; [cbn; congruence|]. cbn. rewrite Hc. exact Hb.
  - exists []. done.
Qed.

Lemma trimStart_head (s : str) (c : N) :
  head (trimStart s) = Some c → is_trim_space c = false.
Proof.
  induction s as [|d r IH]; [discriminate|]. cbn [trimStart].
  destruct (is_trim_space d) eqn:Hd; [exact IH|].
  intros [= <-]. exact Hd.
Qed.

Lemma forallb_rev (f : N → bool) (l : str) :
  forallb f (rev l) = forallb f l.
Proof.
  induction l as [|a l IH]; [reflexivity|].
  cbn [rev forallb]. rewrite forallb_app, IH. cbn. destruct (f a), (forallb f l); reflexivity.
Qed.

Lemma trimEnd_split (s : str) :
  ∃ after, s = trimEnd s ++ after ∧ forallb is_trim_space after = true.
Proof.
  unfold trimEnd. destruct (trimStart_split (rev s)) as (b & Hs & Hb).
  exists (rev b). split; [|rewrite forallb_rev; exact Hb].
  rewrite <- rev_app_distr, <- Hs. symmetry. apply rev_involutive.
Qed.

Lemma last_rev (l : str) : last (rev l) = head l.
Proof. destruct l as [|a l]; [reflexivity|]. cbn [rev]. apply last_snoc. Qed.

Lemma trimEnd_last (s : str) (c : N) :
  last (trimEnd s) = Some c → is_trim_space c = false.
Proof. unfold trimEnd. rewrite last_rev. apply trimStart_head. Qed.

Lemma trimEnd_head (s : str) (c : N) :
  is_trim_space c = false → head s = Some c → head (trimEnd s) = Some c.
Proof.
  intros Hc Hh. destruct s as [|d r]; [discriminate|]. injection Hh as ->.
  destruct (trimEnd_split (c :: r)) as (after & Hs & Ha).
  destruct (trimEnd (c :: r)) as [|d t].
  - cbn in Hs. subst after. cbn in Ha. rewrite Hc in Ha. discriminate.
  - cbn in Hs. injection Hs as -> _. reflexivity.
Qed.

(** The whole of [trim]: blanks before, the result, blanks after, and the
    result neither starts nor ends with a blank. *)
Lemma trim_spec (s : str) :
  ∃ before after,
    s = before ++ trim s ++ after
    ∧ forallb is_trim_space before = true
    ∧ forallb is_trim_space after = true
    ∧ (∀ c, head (trim s) = Some c → is_trim_space c = false)
    ∧ (∀ c, last (trim s) = Some c → is_trim_space c = false).
Proof.
  destruct (trimStart_split s) as (before & Hs & Hb).
  destruct (trimEnd_split (trimStart s)) as (after & Ht & Ha).
  exists before, after. unfold trim.
  split; [rewrite <- Ht; exact Hs|]. split; [exact Hb|]. split; [exact Ha|].
  split; [|apply trimEnd_last].
  intros c Hc. destruct (trimStart s) as [|d r] eqn:E.
  - discriminate.
  - assert (Hd : is_trim_space d = false)
      by (apply (trimStart_head s); rewrite E; reflexivity).
    rewrite (trimEnd_head (d :: r) d Hd eq_refl) in Hc.
    injection Hc as <-. exact Hd.
Qed.

(** X2. The note that [handleAddNote] puts in the list is the typed text
    without the blanks around it: the typed text is blanks, the note,
    blanks, and the note is not empty and neither starts nor ends with a
    blank. Blanks inside the note are kept. *)
Theorem added_note_is_trimmed (io : settlement) (w : World) :
  trim (noteInput (ui w)) ≠ [] →
  ∃ note before after first final,
    last (notes (ui (handleAddNote io w).2)) = Some (JString note)
    ∧ noteInput (ui w) = before ++ note ++ after
    ∧ forallb is_trim_space before = true
    ∧ forallb is_trim_space after = true
    ∧ head note = Some first ∧ is_trim_space first = false
    ∧ last note = Some final ∧ is_trim_space final = false.
Proof.
  intros H. destruct (trim_spec (noteInput (ui w)))
    as (before & after & Hs & Hb & Ha & Hh & Hl).
  destruct (trim (noteInput (ui w))) as [|c r] eqn:E; [done|].
  destruct (last (c :: r)) as [final|] eqn:El;
    [|apply last_None in El; discriminate].
  exists (c :: r), before, after, c, final.
  split; [|repeat split; auto].
  rewrite handleAddNote_notes by (rewrite E; done). rewrite E.
  apply last_snoc.
Qed.

(** *** A response that cannot be read *)

(** X13. An ok response whose body is not JSON is a failure like the others:
    the fixed message is set, the joke is the one that was there, the busy
    flag ends false and nothing is thrown. *)
Theorem unreadable_body_is_failure (r : Response.t) (w : World) :
  Response.ok r = true → Response.body r = None →
  let w' := (handleFetchJoke (Some r) w).2 in
  (handleFetchJoke (Some r) w).1 = inr tt
  ∧ jokeError (ui w') = lit "Could not fetch a joke. Please try again."
  ∧ joke (ui w') = joke (ui w)
  ∧ jokeLoading (ui w') = false.
Proof.
  destruct r as [ok body]. cbn. intros -> ->. repeat split; reflexivity.
Qed.

(** *** What is on screen after an operation *)


(** X4. The "Notes" section after a press, once the notes are loaded. After
    an add whose write is fulfilled it shows the list with the new note
    last. After an add whose write is rejected the new note is in the list
    but the list is not shown: the error line takes its place. A clear
    shows the empty list, or the error line when the removal is rejected.
    An add of a blank text changes nothing of what is shown. *)
Theorem notes_section_after_press (io : settlement) (w : World) :
  notesLoading (ui w) = false →
  (trim (noteInput (ui w)) ≠ [] →
   render_notes (ui (handleAddNote io w).2)
   = match io with
     | fulfilled =>
         [FlatList (notes (ui w) ++ [JString (trim (noteInput (ui w)))])]
     | rejected => [ErrorText (lit "Failed to save notes")]
     end)
  ∧ render_notes (ui (handleClearNotes io w).2)
    = match io with
      | fulfilled => [FlatList []]
      | rejected => [ErrorText (lit "Failed to clear notes")]
      end
  ∧ (trim (noteInput (ui w)) = [] →
     render_notes (ui (handleAddNote io w).2) = render_notes (ui w)).
Proof.
  intros Hl. split; [|split].
  - intros H. unfold render_notes.
    destruct (handleAddNote_other_cells io w) as (_ & _ & _ & ->).
    rewrite Hl, handleAddNote_notesError, handleAddNote_notes by assumption.
    destruct io; reflexivity.
  - destruct w as [[] ? ? ?]. cbn in Hl. subst. destruct io; reflexivity.
  - intros H. rewrite handleAddNote_blank by assumption. reflexivity.
Qed.

(** *** The busy flags *)

Lemma handle_notesLoading (e : event) (w : World) :
  notesLoading (ui w) = false → notesLoading (ui (handle e w).2) = false.
Proof.
  intros H. destruct e as [io|text|answer|io|io]; cbn [handle].
  - apply loadNotes_notesLoading.
  - exact H.
  - destruct answer as [[[] [data|]]|]; exact H.
  - destruct (handleAddNote_other_cells io w) as (_ & _ & _ & ->). exact H.
  - destruct io; exact H.
Qed.

Lemma handle_jokeLoading (e : event) (w : World) :
  jokeLoading (ui w) = false → jokeLoading (ui (handle e w).2) = false.
Proof.
  intros H. destruct e as [io|text|answer|io|io]; cbn [handle].
  - destruct (loadNotes_other_cells io w) as (_ & _ & -> & _). exact H.
  - exact H.
  - destruct answer as [[[] [data|]]|]; reflexivity.
  - destruct (handleAddNote_other_cells io w) as (_ & _ & -> & _). exact H.
  - destruct io; exact H.
Qed.

(** X15. No completed event leaves a spinner on. Once the notes are loaded
    their busy flag stays false through any events, however they settle;
    the same holds for the busy flag of the joke; and after the mount the
    notes flag is false whatever follows. *)
Theorem spinners_stay_off (events : list event) (w : World) :
  (notesLoading (ui w) = false → notesLoading (ui (run events w)) = false)
  ∧ (jokeLoading (ui w) = false → jokeLoading (ui (run events w)) = false)
  ∧ (∀ io, notesLoading (ui (run (Mount io :: events) w)) = false).
Proof.
  assert (Hn : ∀ es w0, notesLoading (ui w0) = false →
                        notesLoading (ui (run es w0)) = false).
  { induction es as [|e es IH]; intros w0 H; [exact H|].
    cbn [run]. apply IH, handle_notesLoading, H. }
  split; [apply Hn|]. split.
  - revert w. induction events as [|e es IH]; intros w H; [exact H|].
    cbn [run]. apply IH, handle_jokeLoading, H.
  - intros io. cbn [run handle]. apply Hn, loadNotes_notesLoading.
Qed.

(** *** The list holds strings, the slot holds what the application wrote *)

Lemma all_strings_snoc (l : list json) (t : str) :
  all_strings l → all_strings (l ++ [JString t]).
Proof.
  intros [texts ->]. exists (texts ++ [t]). rewrite List.map_app. reflexivity.
Qed.

Lemma parse_strings_truthy (texts : list str) :
  str_truthy (JSON.stringify (JArray (List.map JString texts))) = true.
Proof. exact (parse_Some_truthy _ _ (parse_strings texts)). Qed.

(** What [loadNotes] makes of a slot that the application wrote. *)
Lemma loadNotes_written (io : settlement) (w : World) :
  slot_written_by_app w →
  notes (ui (loadNotes io w).2) = notes (ui w)
  ∨ ∃ texts,
      storage w !! NOTES_KEY
      = Some (JSON.stringify (JArray (List.map JString texts)))
      ∧ notes (ui (loadNotes io w).2) = List.map JString texts.
Proof.
  intros Hs. unfold loadNotes, try_finally, try_catch.
  destruct io; [|left; reflexivity].
  rewrite loadNotes_try_fulfilled. cbv zeta.
  destruct Hs as [Hs|[texts Hs]]; rewrite Hs.
  - left. reflexivity.
  - right. exists texts. split; [reflexivity|].
    rewrite parse_strings_truthy, parse_strings. reflexivity.
Qed.

Lemma handle_keeps_strings (e : event) (w : World) :
  all_strings (notes (ui w)) → slot_written_by_app w →
  all_strings (notes (ui (handle e w).2)) ∧ slot_written_by_app (handle e w).2.
Proof.
  intros Hn Hs. destruct e as [io|text|answer|io|io]; cbn [handle].
  - split.
    + destruct (loadNotes_written io w Hs) as [->|(texts & _ & ->)];
        [exact Hn|exists texts; reflexivity].
    + unfold slot_written_by_app. rewrite loadNotes_storage. exact Hs.
  - split; assumption.
  - destruct answer as [[[] [data|]]|]; split; assumption.
  - destruct (decide (trim (noteInput (ui w)) = [])) as [H|H].
    + rewrite handleAddNote_blank by assumption. split; assumption.
    + split.
      * rewrite handleAddNote_notes by assumption.
        apply all_strings_snoc, Hn.
      * unfold slot_written_by_app. destruct io.
        -- right.
           destruct (all_strings_snoc _ (trim (noteInput (ui w))) Hn)
             as [texts Ht].
           exists texts. rewrite handleAddNote_fulfilled_storage by assumption.
           rewrite lookup_insert_eq, Ht. reflexivity.
        -- rewrite handleAddNote_rejected_storage. exact Hs.
  - split; [exists []; destruct io; reflexivity|].
    destruct io.
    + left. apply lookup_delete_eq.
    + exact Hs.
Qed.

Lemma run_keeps_strings (events : list event) (w : World) :
  all_strings (notes (ui w)) → slot_written_by_app w →
  all_strings (notes (ui (run events w))) ∧ slot_written_by_app (run events w).
Proof.
  revert w. induction events as [|e es IH]; intros w Hn Hs; [split; assumption|].
  cbn [run]. destruct (handle_keeps_strings e w Hn Hs). apply IH; assumption.
Qed.

(** X7. Starting from a list of strings and a slot that is absent or was
    written by the application, whatever the events are and however their
    requests settle, the list only ever holds strings and the slot only
    ever is absent or holds the serialisation of a list of strings. *)
Theorem notes_stay_strings (events : list event) (w : World) :
  all_strings (notes (ui w)) → slot_written_by_app w →
  all_strings (notes (ui (run events w))) ∧ slot_written_by_app (run events w).
Proof. apply run_keeps_strings. Qed.

(** *** A session without rejected storage requests *)

Lemma reload_in_sync (w : World) :
  all_strings (notes (ui w)) → in_sync w →
  notes (ui (loadNotes fulfilled (restart w)).2) = notes (ui w).
Proof.
  intros [texts Hn] Hs. unfold in_sync in Hs.
  destruct (storage w !! NOTES_KEY) as [text|] eqn:E.
  - rewrite Hn. apply reload_strings. rewrite E, Hs, Hn. reflexivity.
  - rewrite Hs. unfold loadNotes, try_finally, try_catch.
    rewrite loadNotes_try_fulfilled. cbv zeta.
    change (storage (restart w)) with (storage w). rewrite E. reflexivity.
Qed.



(** X5. A change whose storage request is rejected does not survive a
    restart. With the list in step with the store: after a rejected clear
    the list on screen is empty but starting again loads the old list; after
    a rejected add the new note is on the list but starting again loads
    the list without it. *)
Theorem rejected_change_is_lost (w : World) :
  all_strings (notes (ui w)) → in_sync w →
  (notes (ui (handleClearNotes rejected w).2) = []
   ∧ notes (ui (loadNotes fulfilled (restart (handleClearNotes rejected w).2)).2)
     = notes (ui w))
  ∧ (trim (noteInput (ui w)) ≠ [] →
     notes (ui (handleAddNote rejected w).2)
     = notes (ui w) ++ [JString (trim (noteInput (ui w)))]
     ∧ notes (ui (loadNotes fulfilled (restart (handleAddNote rejected w).2)).2)
       = notes (ui w)).
Proof.
  intros Hn Hs. split.
  - split; [reflexivity|]. exact (reload_in_sync w Hn Hs).
  - intros H. split; [apply handleAddNote_notes; assumption|].
    assert (E : restart (handleAddNote rejected w).2 = restart w).
    { unfold restart. rewrite handleAddNote_rejected_storage. reflexivity. }
    rewrite E. exact (reload_in_sync w Hn Hs).
Qed.

(** X8. A slot that cannot be used is overwritten by the next add. When
    the slot holds JSON that is not an array, or a truthy text that is not
    JSON, then after the mount, typing a text that is not blank and an add
    whose write is fulfilled, the list is that one note, the error is
    cleared and the slot holds the serialisation of that one-note list:
    the old content is gone. *)
Theorem bad_slot_is_overwritten (w : World) (text typed : str) :
  ui w = initial_state →
  storage w !! NOTES_KEY = Some text →
  (∃ v, JSON.parse text = Some v ∧ isArray v = false)
  ∨ (str_truthy text = true ∧ JSON.parse text = None) →
  trim typed ≠ [] →
  let w' := run [Mount fulfilled; ChangeText typed; PressAddNote fulfilled] w in
  notes (ui w') = [JString (trim typed)]
  ∧ notesError (ui w') = []
  ∧ storage w' !! NOTES_KEY
    = Some (JSON.stringify (JArray [JString (trim typed)])).
Proof.
  intros Hinit Hs Hbad Ht. cbv zeta. cbn [run handle].
  set (w1 := (loadNotes fulfilled w).2).
  assert (H1 : notes (ui w1) = []).
  { subst w1. unfold loadNotes, try_finally, try_catch.
    rewrite loadNotes_try_fulfilled. cbv zeta. rewrite Hs.
    destruct Hbad as [(v & Hp & Hv)|(Htt & Hp)].
    - rewrite (parse_Some_truthy _ _ Hp), Hp.
      destruct v; try discriminate Hv; reflexivity.
    - rewrite Htt, Hp. cbn. rewrite Hinit. reflexivity. }
  set (w2 := (setNoteInput typed w1).2).
  assert (H2 : noteInput (ui w2) = typed) by reflexivity.
  assert (H3 : notes (ui w2) = []) by exact H1.
  assert (Ht2 : trim (noteInput (ui w2)) ≠ []) by (rewrite H2; exact Ht).
  rewrite handleAddNote_notes, handleAddNote_notesError,
    handleAddNote_fulfilled_storage by exact Ht2.
  rewrite lookup_insert_eq, H2, H3. repeat split; reflexivity.
Qed.

(** X18. The serialisation that is written to the slot tells lists of
    strings apart: two lists with the same serialisation are the same
    list. *)
Theorem serialisation_is_injective (l1 l2 : list str) :
  JSON.stringify (JArray (List.map JString l1))
  = JSON.stringify (JArray (List.map JString l2)) →
  l1 = l2.
Proof.
  intros H. pose proof (parse_strings l1) as H1. rewrite H, parse_strings in H1.
  injection H1 as H1. revert l2 H1 H.
  induction l1 as [|a l1 IH]; intros [|b l2] E _; try discriminate E;
    [reflexivity|].
  cbn [List.map] in E. injection E as -> E. f_equal.
  apply IH; [exact E|]. rewrite E. reflexivity.
Qed.
(** *** While a request is pending *)

(** X3. The change is on screen before the storage request settles. While
    the write of an add is pending the screen already shows the list with
    the new note, an empty input and no error; while the removal of a clear
    is pending it already shows the empty list and no error; while the read
    of the mount is pending it shows the state as it was. This does not
    depend on how the request settles afterwards. *)
Theorem change_shown_while_pending (io : settlement) (w : World) :
  (trim (noteInput (ui w)) ≠ [] →
   ∃ st later,
     frames (handleAddNote io w).2 = frames w ++ st :: later
     ∧ notes st = notes (ui w) ++ [JString (trim (noteInput (ui w)))]
     ∧ noteInput st = [] ∧ notesError st = [])
  ∧ (∃ st,
       frames (handleClearNotes io w).2 = frames w ++ [st]
       ∧ notes st = [] ∧ notesError st = [])
  ∧ frames (loadNotes io w).2 = frames w ++ [ui w].
Proof.
  split; [|split].
  - intros H. rewrite handleAddNote_nonblank by assumption.
    set (st := {| joke := joke (ui w); jokeError := jokeError (ui w);
                  jokeLoading := jokeLoading (ui w); noteInput := [];
                  notes := notes (ui w) ++ [JString (trim (noteInput (ui w)))];
                  notesError := []; notesLoading := notesLoading (ui w) |}).
    exists st, [st]. split; [|repeat split; reflexivity].
    transitivity ((frames w ++ [st]) ++ [st]);
      [destruct io; reflexivity|rewrite <- app_assoc; reflexivity].
  - eexists. split; [destruct io; reflexivity|]. split; reflexivity.
  - unfold loadNotes, try_finally, try_catch.
    destruct io; [|reflexivity]. rewrite loadNotes_try_fulfilled. cbv zeta.
    destruct (storage w !! NOTES_KEY) as [text|]; [|reflexivity].
    destruct (str_truthy text); [|reflexivity].
    destruct (JSON.parse text) as [[ | | | | | ]|]; reflexivity.
Qed.
End Further.

Section RowFacts.
Context {num : NumberModel}.
Variable NumberToString : Number → str.

Lemma uint_units_inj (d1 d2 : Decimal.uint) :
  uint_units d1 = uint_units d2 → d1 = d2.
Proof.
  revert d2. induction d1 as [|d1 IH|d1 IH|d1 IH|d1 IH|d1 IH|d1 IH|d1 IH|d1 IH|d1 IH|d1 IH];
    intros [|d2|d2|d2|d2|d2|d2|d2|d2|d2|d2] H; try discriminate H;
    try reflexivity; injection H as H; f_equal; apply IH, H.
Qed.

Lemma index_string_inj (i j : nat) : index_string i = index_string j → i = j.
Proof. intros H. apply Unsigned.to_uint_inj, uint_units_inj, H. Qed.

Lemma uint_units_no_hyphen (d : Decimal.uint) : 45%N ∉ uint_units d.
Proof.
  induction d; cbn [uint_units]; [apply not_elem_of_nil|..];
    (apply not_elem_of_cons; split; [discriminate|assumption]).
Qed.

(** A text that ends with a hyphen and digits has one reading. *)
Lemma hyphen_split (a b d1 d2 : str) :
  45%N ∉ d1 → 45%N ∉ d2 →
  a ++ 45%N :: d1 = b ++ 45%N :: d2 → a = b ∧ d1 = d2.
Proof.
  intros H1 H2. revert b. induction a as [|x a IH]; intros [|y b] E.
  - cbn in E. injection E as E. done.
  - cbn in E. injection E as _ E. exfalso. apply H1. rewrite E.
    apply elem_of_app. right. left.
  - cbn in E. injection E as _ E. exfalso. apply H2. rewrite <- E.
    apply elem_of_app. right. left.
  - cbn in E. injection E as E1 E2. subst.
    destruct (IH b E2) as [-> ->]. done.
Qed.

Lemma keyExtractor_index (item1 item2 : json) (i j : nat) (k : str) :
  keyExtractor NumberToString item1 i = Some k →
  keyExtractor NumberToString item2 j = Some k →
  i = j ∧ ToString NumberToString item1 = ToString NumberToString item2.
Proof.
  unfold keyExtractor. intros H1 H2.
  destruct (ToString NumberToString item1) as [s1|]; [|discriminate].
  destruct (ToString NumberToString item2) as [s2|]; [|discriminate].
  cbn in H1, H2. injection H1 as <-. injection H2 as H2.
  apply hyphen_split in H2 as [-> Hd]; try apply uint_units_no_hyphen.
  split; [|reflexivity]. symmetry. apply index_string_inj, Hd.
Qed.

Lemma rows_from_lookup (data : list json) (n : nat) (rows : list row) :
  rows_from NumberToString n data = Some rows →
  length rows = length data
  ∧ ∀ i r, rows !! i = Some r →
      ∃ item, data !! i = Some item
              ∧ keyExtractor NumberToString item (n + i) = Some (row_key r)
              ∧ renderNote NumberToString item (n + i) = Some (row_text r).
Proof.
  revert n rows. induction data as [|item data IH]; intros n rows H.
  - injection H as <-. split; [reflexivity|]. intros i r Hr. discriminate.
  - cbn [rows_from] in H.
    destruct (keyExtractor NumberToString item n) as [k|] eqn:Ek; [|discriminate].
    destruct (renderNote NumberToString item n) as [t|] eqn:Et; [|discriminate].
    destruct (rows_from NumberToString (S n) data) as [rows'|] eqn:Er;
      [|discriminate].
    cbn in H. injection H as <-. destruct (IH _ _ Er) as [Hl Hi].
    split; [cbn; congruence|].
    intros [|i] r Hr.
    + injection Hr as <-. exists item. rewrite Nat.add_0_r. done.
    + cbn in Hr. destruct (Hi i r Hr) as (it & Hd & Hk & Ht).
      exists it. rewrite Nat.add_succ_r. done.
Qed.

(** X16. The keys that [keyExtractor] gives to the rows of a list are all
    different, also when the same note is in the list several times: a key
    ends with a hyphen and the index, and the index has no hyphen. There is
    one row for each note. *)
Theorem row_keys_are_distinct (data : list json) (rows : list row) :
  rows_from NumberToString 0 data = Some rows →
  NoDup (List.map row_key rows) ∧ length rows = length data.
Proof.
  intros H. destruct (rows_from_lookup data 0 rows H) as [Hl Hi].
  split; [|exact Hl]. apply NoDup_alt. intros i j k Hik Hjk.
  change (List.map row_key rows) with (row_key <$> rows) in Hik, Hjk.
  rewrite list_lookup_fmap in Hik, Hjk.
  destruct (rows !! i) as [ri|] eqn:Ei; [|discriminate].
  destruct (rows !! j) as [rj|] eqn:Ej; [|discriminate].
  cbn in Hik, Hjk. injection Hik as Hik. injection Hjk as Hjk.
  destruct (Hi i ri Ei) as (it1 & _ & Hk1 & _).
  destruct (Hi j rj Ej) as (it2 & _ & Hk2 & _).
  rewrite Hik in Hk1. rewrite Hjk in Hk2.
  exact (proj1 (keyExtractor_index it1 it2 _ _ k Hk1 Hk2)).
Qed.

Lemma rows_from_strings (texts : list str) (n : nat) :
  ∃ rows,
    rows_from NumberToString n (List.map JString texts) = Some rows
    ∧ ∀ i s, texts !! i = Some s →
        rows !! i
        = Some {| row_key := s ++ lit "-" ++ index_string (n + i);
                  row_text := index_string (n + i + 1) ++ lit ". " ++ s |}.
Proof.
  revert n. induction texts as [|t texts IH]; intros n.
  - exists []. split; [reflexivity|]. intros i s Hs. discriminate.
  - destruct (IH (S n)) as (rows & Hr & Hi).
    exists ({| row_key := t ++ lit "-" ++ index_string n;
               row_text := index_string (n + 1) ++ lit ". " ++ t |} :: rows).
    split.
    { cbn [List.map rows_from]. unfold keyExtractor, renderNote.
      cbn [ToString mbind option_bind]. rewrite Hr. reflexivity. }
    intros [|i] s Hs.
    + injection Hs as <-. rewrite Nat.add_0_r. reflexivity.
    + cbn in Hs. replace (n + S i) with (S n + i) by lia. exact (Hi i s Hs).
Qed.

(** X17. The list of a session can always be shown. Starting from a list of
    strings and a slot that is absent or was written by the application,
    after any events, however they settle, the list view does not throw:
    it is the text "No notes yet" when the list is empty, and otherwise
    one row for each note, the row at position [i] showing [i + 1], a full
    stop, a space and the note. *)
Theorem session_list_is_shown (events : list event) (w : World) :
  all_strings (notes (ui w)) → slot_written_by_app w →
  ∃ texts,
    notes (ui (run events w)) = List.map JString texts
    ∧ (texts = [] →
       FlatList_view NumberToString (notes (ui (run events w)))
       = Some (EmptyText (lit "No notes yet")))
    ∧ (texts ≠ [] →
       ∃ rows,
         FlatList_view NumberToString (notes (ui (run events w)))
         = Some (Rows rows)
         ∧ ∀ i s, texts !! i = Some s →
             row_text <$> rows !! i
             = Some (index_string (i + 1) ++ lit ". " ++ s)).
Proof.
  intros Hn Hs. destruct (run_keeps_strings events w Hn Hs) as [[texts Ht] _].
  exists texts. split; [exact Ht|]. rewrite Ht. split.
  - intros ->. reflexivity.
  - intros Hne. destruct (rows_from_strings texts 0) as (rows & Hr & Hi).
    exists rows. split.
    + destruct texts as [|t texts]; [done|].
      unfold FlatList_view. cbn [List.map]. cbn [List.map] in Hr.
      rewrite Hr. reflexivity.
    + intros i s Hs'. rewrite (Hi i s Hs'). reflexivity.
Qed.
End RowFacts.

(** ** Concrete runs of the further properties *)

Section FurtherRuns.
#[local] Existing Instance literal_numbers.


Lemma notes_events_leave_joke_alone_witness :
  (∀ answer, PressAddNote rejected ≠ PressGetJoke answer)
  ∧ joke (ui (handle (PressAddNote rejected) stale_joke_world).2)
    = joke (ui stale_joke_world)
  ∧ jokeError (ui (handle (PressClearNotes rejected) stale_joke_world).2)
    = jokeError (ui stale_joke_world).
Proof.
  assert (H1 : ∀ answer, PressAddNote rejected ≠ PressGetJoke answer)
    by (intros answer; discriminate).
  assert (H2 : ∀ answer, PressClearNotes rejected ≠ PressGetJoke answer)
    by (intros answer; discriminate).
  split; [exact H1|]. split.
  - exact (proj1 (notes_events_leave_joke_alone
                    (PressAddNote rejected) stale_joke_world H1)).
  - exact (proj1 (proj2 (notes_events_leave_joke_alone
                           (PressClearNotes rejected) stale_joke_world H2))).
Defined.

Lemma added_note_is_trimmed_witness :
  trim (noteInput (ui example_world)) ≠ []
  ∧ ∃ note before after first final,
      last (notes (ui (handleAddNote fulfilled example_world).2))
      = Some (JString note)
      ∧ noteInput (ui example_world) = before ++ note ++ after
      ∧ forallb is_trim_space before = true
      ∧ forallb is_trim_space after = true
      ∧ head note = Some first ∧ is_trim_space first = false
      ∧ last note = Some final ∧ is_trim_space final = false.
Proof.
  assert (H : trim (noteInput (ui example_world)) ≠ [])
    by (vm_compute; discriminate).
  split; [exact H|]. exact (added_note_is_trimmed fulfilled example_world H).
Defined.

Lemma unreadable_body_is_failure_witness :
  Response.ok {| Response.ok := true; Response.body := None |} = true
  ∧ Response.body {| Response.ok := true; Response.body := None |} = None
  ∧ jokeError
      (ui (handleFetchJoke
             (Some {| Response.ok := true; Response.body := None |})
             (startup_world None)).2)
    = lit "Could not fetch a joke. Please try again.".
Proof.
  split; [reflexivity|]. split; [reflexivity|].
  exact (proj1 (proj2 (unreadable_body_is_failure
                         {| Response.ok := true; Response.body := None |}
                         (startup_world None) eq_refl eq_refl))).
Defined.


Lemma notes_section_after_press_witness :
  notesLoading (ui example_world) = false
  ∧ trim (noteInput (ui example_world)) ≠ []
  ∧ render_notes (ui (handleAddNote rejected example_world).2)
    = [ErrorText (lit "Failed to save notes")]
  ∧ render_notes (ui (handleAddNote fulfilled example_world).2)
    = [FlatList [JString (lit "Buy milk"); JString (lit "Call mom")]]
  ∧ render_notes (ui (handleClearNotes fulfilled example_world).2)
    = [FlatList []].
Proof.
  assert (H : trim (noteInput (ui example_world)) ≠ [])
    by (vm_compute; discriminate).
  split; [reflexivity|]. split; [exact H|]. split; [|split].
  - exact (proj1 (notes_section_after_press rejected example_world eq_refl) H).
  - exact (proj1 (notes_section_after_press fulfilled example_world eq_refl) H).
  - exact (proj1 (proj2 (notes_section_after_press fulfilled example_world
                           eq_refl))).
Defined.

Lemma spinners_stay_off_witness :
  jokeLoading (ui (startup_world None)) = false
  ∧ jokeLoading
      (ui (run [PressGetJoke None; PressAddNote rejected] (startup_world None)))
    = false
  ∧ notesLoading
      (ui (run [Mount rejected; PressGetJoke None; PressClearNotes rejected]
             (startup_world None)))
    = false.
Proof.
  split; [reflexivity|]. split.
  - exact (proj1 (proj2 (spinners_stay_off
                           [PressGetJoke None; PressAddNote rejected]
                           (startup_world None))) eq_refl).
  - exact (proj2 (proj2 (spinners_stay_off
                           [PressGetJoke None; PressClearNotes rejected]
                           (startup_world None))) rejected).
Defined.

Lemma notes_stay_strings_witness :
  all_strings (notes (ui example_world))
  ∧ slot_written_by_app example_world
  ∧ all_strings
      (notes (ui (run [PressAddNote rejected; Mount fulfilled] example_world)))
  ∧ slot_written_by_app
      (run [PressAddNote rejected; Mount fulfilled] example_world).
Proof.
  assert (Hn : all_strings (notes (ui example_world)))
    by (exists [lit "Buy milk"]; reflexivity).
  assert (Hs : slot_written_by_app example_world)
    by (right; exists [lit "Buy milk"]; vm_compute; reflexivity).
  split; [exact Hn|]. split; [exact Hs|].
  exact (notes_stay_strings [PressAddNote rejected; Mount fulfilled]
           example_world Hn Hs).
Defined.


Lemma rejected_change_is_lost_witness :
  all_strings (notes (ui example_world))
  ∧ in_sync example_world
  ∧ trim (noteInput (ui example_world)) ≠ []
  ∧ notes (ui (handleClearNotes rejected example_world).2) = []
  ∧ notes (ui (loadNotes fulfilled
                 (restart (handleClearNotes rejected example_world).2)).2)
    = [JString (lit "Buy milk")]
  ∧ notes (ui (loadNotes fulfilled
                 (restart (handleAddNote rejected example_world).2)).2)
    = [JString (lit "Buy milk")].
Proof.
  assert (Hn : all_strings (notes (ui example_world)))
    by (exists [lit "Buy milk"]; reflexivity).
  assert (Hs : in_sync example_world) by (vm_compute; reflexivity).
  assert (H : trim (noteInput (ui example_world)) ≠ [])
    by (vm_compute; discriminate).
  destruct (rejected_change_is_lost example_world Hn Hs) as ((Hc & Hr) & Ha).
  split; [exact Hn|]. split; [exact Hs|]. split; [exact H|].
  split; [exact Hc|]. split; [exact Hr|]. exact (proj2 (Ha H)).
Defined.

Lemma bad_slot_is_overwritten_witness :
  ui (startup_world (Some (lit "{}"))) = initial_state
  ∧ storage (startup_world (Some (lit "{}"))) !! NOTES_KEY = Some (lit "{}")
  ∧ JSON.parse (lit "{}") = Some (JObject [])
  ∧ trim (lit " x ") ≠ []
  ∧ notes
      (ui (run [Mount fulfilled; ChangeText (lit " x "); PressAddNote fulfilled]
             (startup_world (Some (lit "{}")))))
    = [JString (lit "x")].
Proof.
  assert (Hs : storage (startup_world (Some (lit "{}"))) !! NOTES_KEY
               = Some (lit "{}")) by (vm_compute; reflexivity).
  assert (Hp : JSON.parse (lit "{}") = Some (JObject []))
    by (vm_compute; reflexivity).
  assert (Ht : trim (lit " x ") ≠ []) by (vm_compute; discriminate).
  split; [reflexivity|]. split; [exact Hs|]. split; [exact Hp|].
  split; [exact Ht|].
  exact (proj1 (bad_slot_is_overwritten (startup_world (Some (lit "{}")))
                  (lit "{}") (lit " x ") eq_refl Hs
                  (or_introl (ex_intro _ (JObject []) (conj Hp eq_refl))) Ht)).
Defined.

Lemma serialisation_is_injective_witness :
  JSON.stringify (JArray (List.map JString [lit "a"; lit "b"]))
  = JSON.stringify (JArray (List.map JString [lit "a"; lit "b"]))
  ∧ [lit "a"; lit "b"] = [lit "a"; lit "b"].
Proof.
  split; [reflexivity|].
  exact (serialisation_is_injective [lit "a"; lit "b"] [lit "a"; lit "b"]
           eq_refl).
Defined.

Lemma row_keys_are_distinct_witness :
  rows_from literal_NumberToString 0 [JString (lit "a"); JString (lit "a")]
  = Some [{| row_key := lit "a-0"; row_text := lit "1. a" |};
          {| row_key := lit "a-1"; row_text := lit "2. a" |}]
  ∧ NoDup [lit "a-0"; lit "a-1"].
Proof.
  assert (H : rows_from literal_NumberToString 0
                [JString (lit "a"); JString (lit "a")]
              = Some [{| row_key := lit "a-0"; row_text := lit "1. a" |};
                      {| row_key := lit "a-1"; row_text := lit "2. a" |}])
    by (vm_compute; reflexivity).
  split; [exact H|].
  exact (proj1 (row_keys_are_distinct literal_NumberToString _ _ H)).
Defined.

Lemma session_list_is_shown_witness :
  all_strings (notes (ui (startup_world None)))
  ∧ slot_written_by_app (startup_world None)
  ∧ ∃ texts,
      notes (ui (run [Mount fulfilled; ChangeText (lit "Buy milk");
                      PressAddNote rejected] (startup_world None)))
      = List.map JString texts
      ∧ texts = [lit "Buy milk"].
Proof.
  assert (Hn : all_strings (notes (ui (startup_world None))))
    by (exists []; reflexivity).
  assert (Hs : slot_written_by_app (startup_world None))
    by (left; vm_compute; reflexivity).
  split; [exact Hn|]. split; [exact Hs|].
  destruct (session_list_is_shown literal_NumberToString
              [Mount fulfilled; ChangeText (lit "Buy milk");
               PressAddNote rejected] (startup_world None) Hn Hs)
    as (texts & Ht & _).
  exists texts. split; [exact Ht|].
  vm_compute in Ht. destruct texts as [|a [|b texts]]; try discriminate Ht.
  injection Ht as Ht. rewrite <- Ht. reflexivity.
Defined.

Lemma change_shown_while_pending_witness :
  trim (noteInput (ui example_world)) ≠ []
  ∧ ∃ st later,
      frames (handleAddNote rejected example_world).2
      = frames example_world ++ st :: later
      ∧ notes st = [JString (lit "Buy milk"); JString (lit "Call mom")]
      ∧ noteInput st = [] ∧ notesError st = [].
Proof.
  assert (H : trim (noteInput (ui example_world)) ≠ [])
    by (vm_compute; discriminate).
  split; [exact H|].
  exact (proj1 (change_shown_while_pending rejected example_world) H).
Defined.

End FurtherRuns.
